(** * Active stamina bar prototype: the simulation core of the two apps

    The repository holds two variants of one React component [App]:
    - [VariantA] is [src/App.tsx]: one bar, an exhaustion ceiling that
      decays, an action value that drains while Space is held and
      recovers at a fixed rate otherwise;
    - [VariantB] is the second source file: a maximum that decays and a
      current value with configurable drain and recovery.

    Each component is embedded as a state record (the values kept by
    [useState] and [useRef]) and one function per handler, which takes the
    component state to the state after the handler and the re-render it
    causes.  JavaScript numbers are modelled by the rationals [Q] with
    their equality [==]: sums, products, comparisons, [Math.max] and
    [Math.min] are exact there, rounding and the non-finite values are
    left out.  The statements therefore keep to orders, clamps and values
    that the source computes without rounding; they say nothing of a rate
    that is no number.  A division whose divisor may be zero returns an
    option. *)

From stdpp Require Import gmap strings.
From Stdlib Require Import QArith Qminmax Qround Lqa.

Open Scope Q_scope.
Open Scope string_scope.

(** ** The host: numbers, objects, DOM events *)

Module Math.
Definition max (a b : Q) : Q := Qmax a b.
Definition min (a b : Q) : Q := Qmin a b.
(** The nearest integer, a half going up. *)
Definition round (x : Q) : Z := Qfloor (x + (1 # 2)).
End Math.

(** [a / b] of JavaScript where [b] is not a constant: with [b = 0] the
    result is [Infinity] or [NaN], no number of the model. *)
Definition divide (a b : Q) : option Q :=
  if Qeq_dec b 0 then None else Some (a / b).

(** Reading the property [k] of a configuration object.  The objects of
    the apps always hold the properties that are read (see
    [config_fields_A], [config_fields_B]), so the default is never used. *)
Definition field (o : gmap string Q) (k : string) : Q := default 0 (o !! k).

(** The part of a [KeyboardEvent] the handlers look at. *)
Record KeyboardEvent := { code : string; repeat : bool }.

(** [e.target] of the change event of a slider: the [name] and [value]
    attributes of the [input] element, both strings. *)
Record ChangeEvent := { name : string; value : string }.

(** The props of [SliderControl], lines 18-45 of [src/App.tsx] and 17-44 of
    the second file, but for the handler, which is [handleConfigChange] at
    every use. *)
Module SliderControl.
Record props := {
  label : string; value : Q; min : Q; max : Q; step : Q;
  unit : string; name : string
}.
End SliderControl.

(** ** Variant A: [src/App.tsx] *)

Module VariantA.

Definition TOTAL_STAMINA : Q := 100.
Definition ACTION_STAMINA_RECOVERY_RATE : Q := 2.0.

Record StaminaState := { exhaustion : Q; action : Q }.

(** The component state: the [useState] cells [stamina], [isSpacePressed]
    (with the ref that mirrors it) and [config], and the ref
    [previousTime], [None] for [undefined]. *)
Record App := {
  stamina : StaminaState;
  isSpacePressed : bool;
  config : gmap string Q;
  previousTime : option Q
}.

Definition init : App := {|
  stamina := {| exhaustion := TOTAL_STAMINA; action := TOTAL_STAMINA |};
  isSpacePressed := false;
  config := {[ "exhaustionDecay" := 0.5; "actionStaminaDecay" := 3.0 ]};
  previousTime := None
|}.

(** [resetStamina], lines 71-74. *)
Definition resetStamina (app : App) : App := {|
  stamina := {| exhaustion := TOTAL_STAMINA; action := TOTAL_STAMINA |};
  isSpacePressed := isSpacePressed app;
  config := config app;
  previousTime := None
|}.

(** [handleKeyDown] and [handleKeyUp], lines 77-87. *)
Definition handleKeyDown (e : KeyboardEvent) (app : App) : App :=
  if String.eqb (code e) "Space" && negb (repeat e) then
    {| stamina := stamina app; isSpacePressed := true;
       config := config app; previousTime := previousTime app |}
  else app.

Definition handleKeyUp (e : KeyboardEvent) (app : App) : App :=
  if String.eqb (code e) "Space" then
    {| stamina := stamina app; isSpacePressed := false;
       config := config app; previousTime := previousTime app |}
  else app.

(** The constant [deltaTime] of [gameLoop], line 103. *)
Definition deltaTime (currentTime previous : Q) : Q :=
  (currentTime - previous) / 1000.

(** The function [gameLoop] hands to [setStamina], lines 105-122; [pressed]
    is [isSpacePressedRef.current]. *)
Definition updateStamina (config : gmap string Q) (pressed : bool)
    (deltaTime : Q) (prev : StaminaState) : StaminaState :=
  let exhaustionChange := - field config "exhaustionDecay" in
  let newExhaustion := exhaustion prev + exhaustionChange * deltaTime in
  let clampedExhaustion := Math.max 0 (Math.min TOTAL_STAMINA newExhaustion) in
  let newAction :=
    if pressed then action prev - field config "actionStaminaDecay" * deltaTime
    else action prev + ACTION_STAMINA_RECOVERY_RATE * deltaTime in
  let clampedAction := Math.max 0 (Math.min clampedExhaustion newAction) in
  {| exhaustion := clampedExhaustion; action := clampedAction |}.

(** [gameLoop], lines 97-126: the first frame only records the time. *)
Definition gameLoop (currentTime : Q) (app : App) : App :=
  match previousTime app with
  | None =>
      {| stamina := stamina app; isSpacePressed := isSpacePressed app;
         config := config app; previousTime := Some currentTime |}
  | Some previous =>
      {| stamina := updateStamina (config app) (isSpacePressed app)
                      (deltaTime currentTime previous) (stamina app);
         isSpacePressed := isSpacePressed app;
         config := config app;
         previousTime := Some currentTime |}
  end.

(** The cleanup of the effect that runs the loop, lines 131-136.  It runs
    when [gameLoop] is rebuilt, that is when [config] is replaced. *)
Definition cleanup (app : App) : App := {|
  stamina := stamina app; isSpacePressed := isSpacePressed app;
  config := config app; previousTime := None
|}.

(** Lines 139-141.  [exhaustionPercent] divides by a constant; the other
    ratio divides by the state and is guarded. *)
Definition exhaustionPercent (s : StaminaState) : Q :=
  (exhaustion s / TOTAL_STAMINA) * 100.

Definition actionRelativeToExhaustionPercent (s : StaminaState) : option Q :=
  if Qlt_le_dec 0 (exhaustion s)
  then (fun r => r * 100) <$> divide (action s) (exhaustion s)
  else Some 0.

(** What the browser can send to the component. *)
Inductive Event :=
| Frame (currentTime : Q)
| KeyDown (e : KeyboardEvent)
| KeyUp (e : KeyboardEvent)
| Change (e : ChangeEvent)
| ClickReset.

Section Events.
Variable parseFloat : string -> Q.

(** [handleConfigChange], lines 63-69: the object spread with one computed
    key. *)
Definition handleConfigChange (e : ChangeEvent) (app : App) : App := {|
  stamina := stamina app; isSpacePressed := isSpacePressed app;
  config := <[name e := parseFloat (value e)]> (config app);
  previousTime := previousTime app
|}.

Definition dispatch (ev : Event) (app : App) : App :=
  match ev with
  | Frame currentTime => gameLoop currentTime app
  | KeyDown e => handleKeyDown e app
  | KeyUp e => handleKeyUp e app
  | Change e => cleanup (handleConfigChange e app)
  | ClickReset => resetStamina app
  end.

Fixpoint run (evs : list Event) (app : App) : App :=
  match evs with
  | [] => app
  | ev :: evs' => run evs' (dispatch ev app)
  end.

(** The assumptions on the environment: a frame is not stamped before the
    recorded one, a slider does not produce a negative rate. *)
Definition admissible (ev : Event) (app : App) : Prop :=
  match ev with
  | Frame currentTime =>
      match previousTime app with
      | Some previous => previous <= currentTime
      | None => True
      end
  | Change e => 0 <= parseFloat (value e)
  | _ => True
  end.

Fixpoint admissible_trace (evs : list Event) (app : App) : Prop :=
  match evs with
  | [] => True
  | ev :: evs' => admissible ev app /\ admissible_trace evs' (dispatch ev app)
  end.

(** The states after each of the frames stamped [ts]. *)
Fixpoint frames (ts : list Q) (app : App) : list App :=
  match ts with
  | [] => []
  | t :: ts' => gameLoop t app :: frames ts' (gameLoop t app)
  end.

End Events.

(** [0 <= action <= exhaustion <= TOTAL_STAMINA]. *)
Definition invariant (s : StaminaState) : Prop :=
  0 <= action s /\ action s <= exhaustion s /\ exhaustion s <= TOTAL_STAMINA.

(** The numbers written on the bar, lines 165-167: the action value, then
    the exhaustion value. *)
Definition barText (s : StaminaState) : Z * Z :=
  (Math.round (action s), Math.round (exhaustion s)).

(** The sliders of the page, lines 174-189. *)
Definition sliders (config : gmap string Q) : list SliderControl.props := [
  {| SliderControl.label := "Exhaustion Decay";
     SliderControl.value := field config "exhaustionDecay";
     SliderControl.min := 0; SliderControl.max := 10;
     SliderControl.step := 0.5; SliderControl.unit := "%/sec";
     SliderControl.name := "exhaustionDecay" |};
  {| SliderControl.label := "Action Stamina Decay";
     SliderControl.value := field config "actionStaminaDecay";
     SliderControl.min := 0; SliderControl.max := 15;
     SliderControl.step := 0.5; SliderControl.unit := "%/sec";
     SliderControl.name := "actionStaminaDecay" |}
].

End VariantA.

(** ** Variant B: the second source file *)

Module VariantB.

Definition TOTAL_STAMINA : Q := 100.

Record StaminaState := { max : Q; current : Q }.

Record App := {
  stamina : StaminaState;
  isSpacePressed : bool;
  config : gmap string Q;
  previousTime : option Q
}.

Definition init : App := {|
  stamina := {| max := TOTAL_STAMINA; current := TOTAL_STAMINA |};
  isSpacePressed := false;
  config := {[ "maxStaminaDecay" := 1.5; "currentStaminaDecay" := 30;
               "currentStaminaRecovery" := 20 ]};
  previousTime := None
|}.

(** [resetStamina], lines 71-73: the ref [previousTime] is not written. *)
Definition resetStamina (app : App) : App := {|
  stamina := {| max := TOTAL_STAMINA; current := TOTAL_STAMINA |};
  isSpacePressed := isSpacePressed app;
  config := config app;
  previousTime := previousTime app
|}.

(** [handleKeyDown] and [handleKeyUp], lines 76-86. *)
Definition handleKeyDown (e : KeyboardEvent) (app : App) : App :=
  if String.eqb (code e) "Space" && negb (repeat e) then
    {| stamina := stamina app; isSpacePressed := true;
       config := config app; previousTime := previousTime app |}
  else app.

Definition handleKeyUp (e : KeyboardEvent) (app : App) : App :=
  if String.eqb (code e) "Space" then
    {| stamina := stamina app; isSpacePressed := false;
       config := config app; previousTime := previousTime app |}
  else app.

(** The constant [deltaTime] of [gameLoop], line 100. *)
Definition deltaTime (currentTime previous : Q) : Q :=
  (currentTime - previous) / 1000.

(** The function [gameLoop] hands to [setStamina], lines 102-115. *)
Definition updateStamina (config : gmap string Q) (pressed : bool)
    (deltaTime : Q) (prev : StaminaState) : StaminaState :=
  let newMax := Math.max 0 (max prev - field config "maxStaminaDecay" * deltaTime) in
  let newCurrent :=
    if pressed then current prev - field config "currentStaminaDecay" * deltaTime
    else current prev + field config "currentStaminaRecovery" * deltaTime in
  let newCurrent := Math.max 0 (Math.min newCurrent newMax) in
  {| max := newMax; current := newCurrent |}.

(** [gameLoop], lines 96-119: on the first frame the time is recorded and
    the update still runs, with the frame's own time as the previous one. *)
Definition gameLoop (currentTime : Q) (app : App) : App :=
  let previous :=
    match previousTime app with
    | None => currentTime
    | Some previous => previous
    end in
  {| stamina := updateStamina (config app) (isSpacePressed app)
                  (deltaTime currentTime previous) (stamina app);
     isSpacePressed := isSpacePressed app;
     config := config app;
     previousTime := Some currentTime |}.

(** The cleanup of the effect that runs the loop, lines 124-129. *)
Definition cleanup (app : App) : App := {|
  stamina := stamina app; isSpacePressed := isSpacePressed app;
  config := config app; previousTime := None
|}.

(** Lines 132-133. *)
Definition maxPercent (s : StaminaState) : Q := (max s / TOTAL_STAMINA) * 100.
Definition currentPercent (s : StaminaState) : Q :=
  (current s / TOTAL_STAMINA) * 100.

Inductive Event :=
| Frame (currentTime : Q)
| KeyDown (e : KeyboardEvent)
| KeyUp (e : KeyboardEvent)
| Change (e : ChangeEvent)
| ClickReset.

Section Events.
Variable parseFloat : string -> Q.

(** [handleConfigChange], lines 63-69. *)
Definition handleConfigChange (e : ChangeEvent) (app : App) : App := {|
  stamina := stamina app; isSpacePressed := isSpacePressed app;
  config := <[name e := parseFloat (value e)]> (config app);
  previousTime := previousTime app
|}.

Definition dispatch (ev : Event) (app : App) : App :=
  match ev with
  | Frame currentTime => gameLoop currentTime app
  | KeyDown e => handleKeyDown e app
  | KeyUp e => handleKeyUp e app
  | Change e => cleanup (handleConfigChange e app)
  | ClickReset => resetStamina app
  end.

Fixpoint run (evs : list Event) (app : App) : App :=
  match evs with
  | [] => app
  | ev :: evs' => run evs' (dispatch ev app)
  end.

Definition admissible (ev : Event) (app : App) : Prop :=
  match ev with
  | Frame currentTime =>
      match previousTime app with
      | Some previous => previous <= currentTime
      | None => True
      end
  | Change e => 0 <= parseFloat (value e)
  | _ => True
  end.

Fixpoint admissible_trace (evs : list Event) (app : App) : Prop :=
  match evs with
  | [] => True
  | ev :: evs' => admissible ev app /\ admissible_trace evs' (dispatch ev app)
  end.

Fixpoint frames (ts : list Q) (app : App) : list App :=
  match ts with
  | [] => []
  | t :: ts' => gameLoop t app :: frames ts' (gameLoop t app)
  end.

End Events.

(** [0 <= current <= max <= TOTAL_STAMINA]. *)
Definition invariant (s : StaminaState) : Prop :=
  0 <= current s /\ current s <= max s /\ max s <= TOTAL_STAMINA.

(** What the admissible traces preserve: the bounds, and a decay rate of
    the maximum that is not negative. *)
Definition good (app : App) : Prop :=
  invariant (stamina app) /\ 0 <= field (config app) "maxStaminaDecay".

(** The numbers written on the bar, lines 153-155: the current value, then
    the maximum. *)
Definition barText (s : StaminaState) : Z * Z :=
  (Math.round (current s), Math.round (max s)).

(** The sliders of the page, lines 162-185. *)
Definition sliders (config : gmap string Q) : list SliderControl.props := [
  {| SliderControl.label := "Max Stamina Decay";
     SliderControl.value := field config "maxStaminaDecay";
     SliderControl.min := 0; SliderControl.max := 10;
     SliderControl.step := 0.1; SliderControl.unit := "pts/sec";
     SliderControl.name := "maxStaminaDecay" |};
  {| SliderControl.label := "Action Stamina Drain";
     SliderControl.value := field config "currentStaminaDecay";
     SliderControl.min := 0; SliderControl.max := 100;
     SliderControl.step := 1; SliderControl.unit := "pts/sec";
     SliderControl.name := "currentStaminaDecay" |};
  {| SliderControl.label := "Stamina Recovery";
     SliderControl.value := field config "currentStaminaRecovery";
     SliderControl.min := 0; SliderControl.max := 100;
     SliderControl.step := 1; SliderControl.unit := "pts/sec";
     SliderControl.name := "currentStaminaRecovery" |}
].

End VariantB.

(** ** Notions shared by the statements *)

(** No value of the list is above the one before it. *)
Fixpoint nonincreasing (l : list Q) : Prop :=
  match l with
  | x :: (y :: _) as l' => y <= x /\ nonincreasing l'
  | _ => True
  end.

(** The time stamps [ts] of successive frames do not go back, from the
    recorded time [previous] on. *)
Fixpoint monotonic (previous : option Q) (ts : list Q) : Prop :=
  match ts with
  | [] => True
  | t :: ts' =>
      match previous with Some p => p <= t | None => True end
      /\ monotonic (Some t) ts'
  end.

(** [y] is [x] clamped to the interval from [lo] to [hi]: the bound that
    [x] has passed, or [x] itself between the bounds. *)
Definition clamped (lo hi x y : Q) : Prop :=
  (x <= lo -> y == lo) /\ (lo <= x <= hi -> y == x) /\ (hi <= x -> y == hi).

(** [y] is [x] clamped from below only. *)
Definition clamped_below (lo x y : Q) : Prop :=
  (x <= lo -> y == lo) /\ (lo <= x -> y == x).

(** A press and a release of the space bar, without key repeat. *)
Definition Space : KeyboardEvent := {| code := "Space"; repeat := false |}.

(** Two stamina states hold the same numbers. *)
Definition same_A (s1 s2 : VariantA.StaminaState) : Prop :=
  VariantA.exhaustion s1 == VariantA.exhaustion s2
  /\ VariantA.action s1 == VariantA.action s2.

Definition same_B (s1 s2 : VariantB.StaminaState) : Prop :=
  VariantB.max s1 == VariantB.max s2
  /\ VariantB.current s1 == VariantB.current s2.

(** The change event [e] comes from the slider [sl]: it carries the name of
    the slider and a value within its range, as a range input yields. *)
Definition from_slider (parseFloat : string -> Q) (e : ChangeEvent)
    (sl : SliderControl.props) : Prop :=
  name e = SliderControl.name sl
  /\ SliderControl.min sl <= parseFloat (value e) <= SliderControl.max sl.

(** The slider [sl] shows the property it names, and that property lies in
    the range of the slider. *)
Definition in_range (config : gmap string Q) (sl : SliderControl.props) : Prop :=
  config !! SliderControl.name sl = Some (SliderControl.value sl)
  /\ SliderControl.min sl <= SliderControl.value sl <= SliderControl.max sl.

(** The configuration holds the properties it started with and no other,
    and each slider shows a value of its range. *)
Definition ranged_A (config : gmap string Q) : Prop :=
  Forall (in_range config) (VariantA.sliders config)
  /\ dom config = dom (VariantA.config VariantA.init).

Definition ranged_B (config : gmap string Q) : Prop :=
  Forall (in_range config) (VariantB.sliders config)
  /\ dom config = dom (VariantB.config VariantB.init).

(** The slider [sl'] is the slider [sl] after the change event [e]: it
    shows the parsed value if the event names it, the value it showed
    otherwise, and its other props are the same. *)
Definition redrawn (parseFloat : string -> Q) (e : ChangeEvent)
    (sl sl' : SliderControl.props) : Prop :=
  SliderControl.label sl' = SliderControl.label sl
  /\ SliderControl.name sl' = SliderControl.name sl
  /\ SliderControl.min sl' = SliderControl.min sl
  /\ SliderControl.max sl' = SliderControl.max sl
  /\ SliderControl.step sl' = SliderControl.step sl
  /\ SliderControl.unit sl' = SliderControl.unit sl
  /\ SliderControl.value sl'
     = if decide (name e = SliderControl.name sl)
       then parseFloat (value e) else SliderControl.value sl.

(** Every change event of the trace comes from a slider of the page. *)
Fixpoint slider_trace_A (parseFloat : string -> Q)
    (evs : list VariantA.Event) (app : VariantA.App) : Prop :=
  match evs with
  | [] => True
  | ev :: evs' =>
      match ev with
      | VariantA.Change e =>
          Exists (from_slider parseFloat e)
            (VariantA.sliders (VariantA.config app))
      | _ => True
      end
      /\ slider_trace_A parseFloat evs' (VariantA.dispatch parseFloat ev app)
  end.

Fixpoint slider_trace_B (parseFloat : string -> Q)
    (evs : list VariantB.Event) (app : VariantB.App) : Prop :=
  match evs with
  | [] => True
  | ev :: evs' =>
      match ev with
      | VariantB.Change e =>
          Exists (from_slider parseFloat e)
            (VariantB.sliders (VariantB.config app))
      | _ => True
      end
      /\ slider_trace_B parseFloat evs' (VariantB.dispatch parseFloat ev app)
  end.

(** Key events that the handlers let pass: a key other than the space bar,
    or a key-down sent by the key repeat. *)
Definition ignored_A (ev : VariantA.Event) : Prop :=
  match ev with
  | VariantA.KeyDown e => code e <> "Space" \/ repeat e = true
  | VariantA.KeyUp e => code e <> "Space"
  | _ => False
  end.

Definition ignored_B (ev : VariantB.Event) : Prop :=
  match ev with
  | VariantB.KeyDown e => code e <> "Space" \/ repeat e = true
  | VariantB.KeyUp e => code e <> "Space"
  | _ => False
  end.

(** Events that are neither a frame nor a click on the reset button. *)
Definition quiet_A (ev : VariantA.Event) : Prop :=
  match ev with
  | VariantA.Frame _ | VariantA.ClickReset => False
  | _ => True
  end.

Definition quiet_B (ev : VariantB.Event) : Prop :=
  match ev with
  | VariantB.Frame _ | VariantB.ClickReset => False
  | _ => True
  end.

(** ** Clamps and configuration objects *)

(** Names every [Math.max] and [Math.min] of the goal and keeps the two
    cases of each as a hypothesis, for linear arithmetic to finish. *)
Ltac name_clamps :=
  unfold Math.max, Math.min in *;
  repeat match goal with
  | |- context [Qmax ?a ?b] =>
      let m := fresh "m" in
      pose proof (Q.max_spec a b); set (m := Qmax a b) in *; clearbody m
  | |- context [Qmin ?a ?b] =>
      let m := fresh "m" in
      pose proof (Q.min_spec a b); set (m := Qmin a b) in *; clearbody m
  | H : context [Qmax ?a ?b] |- _ =>
      let m := fresh "m" in
      pose proof (Q.max_spec a b); set (m := Qmax a b) in *; clearbody m
  | H : context [Qmin ?a ?b] |- _ =>
      let m := fresh "m" in
      pose proof (Q.min_spec a b); set (m := Qmin a b) in *; clearbody m
  end.

Ltac clamps := name_clamps; intuition lra.

(** As [clamps], but a case of a clamp that the facts at hand exclude is
    dropped at once. *)
Ltac prune_clamps :=
  name_clamps;
  repeat match goal with
  | H : (_ < _ /\ _ == _) \/ (_ <= _ /\ _ == _) |- _ =>
      destruct H as [[? ?]|[? ?]]; try (exfalso; lra)
  end;
  try lra; intuition lra.

(** Closes a comparison of closed numbers by evaluating it. *)
Ltac evaluate := vm_compute; intuition discriminate.

Lemma max_0_nonneg (x : Q) : 0 <= Math.max 0 x.
Proof. clamps. Qed.

Lemma clamp_between (lo hi x : Q) :
  lo <= hi -> lo <= Math.max lo (Math.min hi x) <= hi.
Proof. intros. clamps. Qed.

Lemma clamp_between' (lo hi x : Q) :
  lo <= hi -> lo <= Math.max lo (Math.min x hi) <= hi.
Proof. intros. clamps. Qed.

Lemma field_insert (o : gmap string Q) (n k : string) (v : Q) :
  field (<[n := v]> o) k = if decide (n = k) then v else field o k.
Proof.
  unfold field. rewrite lookup_insert. by case_decide.
Qed.

Lemma field_insert_nonneg (o : gmap string Q) (n k : string) (v : Q) :
  0 <= v -> 0 <= field o k -> 0 <= field (<[n := v]> o) k.
Proof. intros. rewrite field_insert. by case_decide. Qed.

Lemma product_nonneg (r d : Q) : 0 <= r -> 0 <= d -> 0 <= r * d.
Proof. apply Qmult_le_0_compat. Qed.

(** ** Variant A: the invariant holds after every handler *)

Section FactsA.
Import VariantA.
Variable parseFloat : string -> Q.

Lemma deltaTime_nonneg_A (t p : Q) : p <= t -> 0 <= deltaTime t p.
Proof.
  intros. unfold deltaTime, Qdiv. change (/ 1000) with (1 # 1000). lra.
Qed.

Lemma updateStamina_invariant_A cfg pressed dt prev :
  invariant (updateStamina cfg pressed dt prev).
Proof.
  unfold invariant, updateStamina, TOTAL_STAMINA. simpl.
  destruct pressed; clamps.
Qed.

Lemma init_invariant_A : invariant (stamina init).
Proof. evaluate. Qed.

Lemma dispatch_invariant_A ev app :
  invariant (stamina app) -> invariant (stamina (dispatch parseFloat ev app)).
Proof.
  intros Hinv. destruct ev as [t|e|e|e|]; simpl.
  - unfold gameLoop. destruct (previousTime app); simpl; [|done].
    apply updateStamina_invariant_A.
  - unfold handleKeyDown. by destruct (_ && _).
  - unfold handleKeyUp. by destruct (_ =? _)%string.
  - done.
  - apply init_invariant_A.
Qed.

Lemma run_invariant_A evs app :
  invariant (stamina app) -> invariant (stamina (run parseFloat evs app)).
Proof.
  revert app. induction evs as [|ev evs IH]; intros app Hinv; simpl; [done|].
  apply IH, dispatch_invariant_A, Hinv.
Qed.

(** The properties read by [gameLoop] stay in the configuration object. *)
Lemma config_fields_A evs k :
  is_Some (config init !! k) ->
  is_Some (config (run parseFloat evs init) !! k).
Proof.
  generalize init. induction evs as [|ev evs IH]; intros app Hk; simpl; [done|].
  apply IH. destruct ev as [t|e|e|e|]; simpl; try done.
  - unfold gameLoop. by destruct (previousTime app).
  - unfold handleKeyDown. by destruct (_ && _).
  - unfold handleKeyUp. by destruct (_ =? _)%string.
  - rewrite lookup_insert. case_decide; [by eexists | done].
Qed.

End FactsA.

(** ** Variant B: the invariant needs the assumptions on the environment *)

Section FactsB.
Import VariantB.
Variable parseFloat : string -> Q.

Lemma deltaTime_nonneg_B (t p : Q) : p <= t -> 0 <= deltaTime t p.
Proof.
  intros. unfold deltaTime, Qdiv. change (/ 1000) with (1 # 1000). lra.
Qed.

Lemma deltaTime_same_B (t : Q) : deltaTime t t == 0.
Proof. unfold deltaTime, Qdiv. change (/ 1000) with (1 # 1000). lra. Qed.

(** The ceiling has no upper clamp: it stays below the cap because it
    starts there and a step with a rate and a time that are not negative
    does not raise it. *)
Lemma updateStamina_invariant_B cfg pressed dt prev :
  0 <= field cfg "maxStaminaDecay" -> 0 <= dt ->
  max prev <= TOTAL_STAMINA ->
  invariant (updateStamina cfg pressed dt prev).
Proof.
  intros Hd Hdt Hmax. pose proof (product_nonneg _ _ Hd Hdt).
  unfold invariant, updateStamina, TOTAL_STAMINA in *. simpl.
  set (loss := field cfg "maxStaminaDecay" * dt) in *. clearbody loss.
  destruct pressed; clamps.
Qed.

Lemma init_good_B : good init.
Proof.
  split; evaluate.
Qed.

Lemma dispatch_good_B ev app :
  good app -> admissible parseFloat ev app ->
  good (dispatch parseFloat ev app).
Proof.
  intros [Hinv Hcfg] Hadm. destruct ev as [t|e|e|e|]; simpl in *.
  - split; [|done]. simpl.
    apply updateStamina_invariant_B; [done| |apply Hinv].
    destruct (previousTime app).
    + by apply deltaTime_nonneg_B.
    + rewrite deltaTime_same_B. lra.
  - unfold handleKeyDown. by destruct (_ && _).
  - unfold handleKeyUp. by destruct (_ =? _)%string.
  - split; [done|]. simpl. by apply field_insert_nonneg.
  - split; [evaluate|done].
Qed.

Lemma run_good_B evs app :
  good app -> admissible_trace parseFloat evs app ->
  good (run parseFloat evs app).
Proof.
  revert app. induction evs as [|ev evs IH]; intros app Hg Hadm; simpl; [done|].
  destruct Hadm as [Hev Hrest]. apply IH; [|done]. by apply dispatch_good_B.
Qed.

Lemma config_fields_B evs k :
  is_Some (config init !! k) ->
  is_Some (config (run parseFloat evs init) !! k).
Proof.
  generalize init. induction evs as [|ev evs IH]; intros app Hk; simpl; [done|].
  apply IH. destruct ev as [t|e|e|e|]; simpl; try done.
  - unfold handleKeyDown. by destruct (_ && _).
  - unfold handleKeyUp. by destruct (_ =? _)%string.
  - rewrite lookup_insert. case_decide; [by eexists | done].
Qed.

End FactsB.

(** ** The invariant on reachable states *)

(** C1. In both variants every state reached from the initial one by
    frames, key events, slider changes and resets, where no frame is
    stamped before the recorded time and no slider yields a negative rate,
    satisfies [0 <= secondary <= primary <= TOTAL_STAMINA]. *)
Theorem C1_invariant_reachable (parseFloat : string -> Q) :
  (forall evs,
     VariantA.admissible_trace parseFloat evs VariantA.init ->
     VariantA.invariant
       (VariantA.stamina (VariantA.run parseFloat evs VariantA.init)))
  /\ (forall evs,
     VariantB.admissible_trace parseFloat evs VariantB.init ->
     VariantB.invariant
       (VariantB.stamina (VariantB.run parseFloat evs VariantB.init))).
Proof.
  split; intros evs Hadm.
  - apply run_invariant_A, init_invariant_A.
  - apply run_good_B; [apply init_good_B | exact Hadm].
Qed.

Lemma C1_invariant_reachable_witness :
  let parseFloat := fun _ : string => 4 in
  let evsA := [VariantA.Frame 0; VariantA.KeyDown Space; VariantA.Frame 16;
               VariantA.Change {| name := "exhaustionDecay"; value := "4" |};
               VariantA.Frame 40; VariantA.ClickReset; VariantA.Frame 50] in
  let evsB := [VariantB.Frame 0; VariantB.KeyDown Space; VariantB.Frame 16;
               VariantB.Change {| name := "maxStaminaDecay"; value := "4" |};
               VariantB.Frame 40; VariantB.ClickReset; VariantB.Frame 50] in
  (VariantA.admissible_trace parseFloat evsA VariantA.init
   /\ VariantA.invariant
        (VariantA.stamina (VariantA.run parseFloat evsA VariantA.init)))
  /\ (VariantB.admissible_trace parseFloat evsB VariantB.init
   /\ VariantB.invariant
        (VariantB.stamina (VariantB.run parseFloat evsB VariantB.init))).
Proof.
  intros parseFloat evsA evsB.
  assert (HA : VariantA.admissible_trace parseFloat evsA VariantA.init)
    by evaluate.
  assert (HB : VariantB.admissible_trace parseFloat evsB VariantB.init)
    by evaluate.
  split; (split; [assumption|]).
  - exact (proj1 (C1_invariant_reachable parseFloat) evsA HA).
  - exact (proj2 (C1_invariant_reachable parseFloat) evsB HB).
Defined.

(** ** Reset *)

(** C2, as the code has it.  In both variants [resetStamina] sets both
    values to [TOTAL_STAMINA].  In variant A it also clears the recorded
    time, so the next frame is a first frame: whatever its time stamp, it
    leaves the values at the cap and only records the time. *)
Theorem C2_reset (a : VariantA.App) (b : VariantB.App) (t : Q) :
  VariantA.stamina (VariantA.resetStamina a)
    = {| VariantA.exhaustion := VariantA.TOTAL_STAMINA;
         VariantA.action := VariantA.TOTAL_STAMINA |}
  /\ VariantA.previousTime (VariantA.resetStamina a) = None
  /\ VariantA.stamina (VariantA.gameLoop t (VariantA.resetStamina a))
       = VariantA.stamina (VariantA.resetStamina a)
  /\ VariantA.previousTime (VariantA.gameLoop t (VariantA.resetStamina a))
       = Some t
  /\ VariantB.stamina (VariantB.resetStamina b)
       = {| VariantB.max := VariantB.TOTAL_STAMINA;
            VariantB.current := VariantB.TOTAL_STAMINA |}.
Proof. repeat split. Qed.

(** C2 fails in variant B: after a frame at time 0 the reset keeps that
    time, and the frame at time 1000 charges the whole second to the state
    that was just reset. *)
Lemma C2_reset_counterexample :
  let b := VariantB.resetStamina (VariantB.gameLoop 0 VariantB.init) in
  VariantB.previousTime b = Some 0
  /\ VariantB.previousTime b <> None
  /\ VariantB.max (VariantB.stamina (VariantB.gameLoop 1000 b)) == 98.5
  /\ ~ VariantB.max (VariantB.stamina (VariantB.gameLoop 1000 b))
       == VariantB.TOTAL_STAMINA.
Proof. cbv zeta. repeat split; try done; vm_compute; done. Qed.

(** ** Elapsed time *)

Lemma gameLoop_stamina_A (t p : Q) (a : VariantA.App) :
  VariantA.previousTime a = Some p ->
  VariantA.stamina (VariantA.gameLoop t a)
  = VariantA.updateStamina (VariantA.config a) (VariantA.isSpacePressed a)
      (VariantA.deltaTime t p) (VariantA.stamina a).
Proof. intros H. unfold VariantA.gameLoop. by rewrite H. Qed.

Lemma gameLoop_stamina_B (t p : Q) (b : VariantB.App) :
  VariantB.previousTime b = Some p ->
  VariantB.stamina (VariantB.gameLoop t b)
  = VariantB.updateStamina (VariantB.config b) (VariantB.isSpacePressed b)
      (VariantB.deltaTime t p) (VariantB.stamina b).
Proof. intros H. unfold VariantB.gameLoop. by rewrite H. Qed.

Lemma deltaTime_sign (t p : Q) : p <= t <-> 0 <= (t - p) / 1000.
Proof.
  unfold Qdiv. change (/ 1000) with (1 # 1000). split; intros; lra.
Qed.

(** C3, as the code has it.  The elapsed time of a frame is
    [(currentTime - previous) / 1000] with no clamp, and the update uses it
    as it is: it is not negative exactly when the time stamp is not before
    the recorded one. *)
Theorem C3_elapsed (t p : Q) (a : VariantA.App) (b : VariantB.App) :
  (p <= t <-> 0 <= VariantA.deltaTime t p)
  /\ (p <= t <-> 0 <= VariantB.deltaTime t p)
  /\ (VariantA.previousTime a = Some p ->
      VariantA.stamina (VariantA.gameLoop t a)
      = VariantA.updateStamina (VariantA.config a)
          (VariantA.isSpacePressed a) ((t - p) / 1000) (VariantA.stamina a))
  /\ (VariantB.previousTime b = Some p ->
      VariantB.stamina (VariantB.gameLoop t b)
      = VariantB.updateStamina (VariantB.config b)
          (VariantB.isSpacePressed b) ((t - p) / 1000) (VariantB.stamina b)).
Proof.
  split; [apply deltaTime_sign|]. split; [apply deltaTime_sign|].
  split; intros H.
  - by apply gameLoop_stamina_A.
  - by apply gameLoop_stamina_B.
Qed.

Lemma C3_elapsed_witness :
  let a := VariantA.gameLoop 0 VariantA.init in
  let b := VariantB.gameLoop 0 VariantB.init in
  (VariantA.previousTime a = Some 0 /\ VariantB.previousTime b = Some 0)
  /\ VariantA.stamina (VariantA.gameLoop 16 a)
     = VariantA.updateStamina (VariantA.config a)
         (VariantA.isSpacePressed a) ((16 - 0) / 1000) (VariantA.stamina a)
  /\ VariantB.stamina (VariantB.gameLoop 16 b)
     = VariantB.updateStamina (VariantB.config b)
         (VariantB.isSpacePressed b) ((16 - 0) / 1000) (VariantB.stamina b).
Proof.
  intros a b.
  assert (Ha : VariantA.previousTime a = Some 0) by reflexivity.
  assert (Hb : VariantB.previousTime b = Some 0) by reflexivity.
  split; [by split|]. split.
  - exact (proj1 (proj2 (proj2 (C3_elapsed 16 0 a b))) Ha).
  - exact (proj2 (proj2 (proj2 (C3_elapsed 16 0 a b))) Hb).
Defined.

(** C3 fails: a frame stamped 1000 after one stamped 2000 has the elapsed
    time -1.  In variant B the maximum then grows past the cap; in variant
    A the action value grows by 3 while the space bar is held. *)
Lemma C3_elapsed_counterexample :
  let a := VariantA.gameLoop 2000
             (VariantA.gameLoop 0 (VariantA.handleKeyDown Space VariantA.init)) in
  let b := VariantB.gameLoop 2000 VariantB.init in
  VariantA.deltaTime 1000 2000 == -1
  /\ VariantB.deltaTime 1000 2000 == -1
  /\ ~ 0 <= VariantA.deltaTime 1000 2000
  /\ ~ 0 <= VariantB.deltaTime 1000 2000
  /\ VariantA.previousTime a = Some 2000
  /\ VariantB.previousTime b = Some 2000
  /\ VariantA.isSpacePressed a = true
  /\ VariantA.action (VariantA.stamina a) == 94
  /\ VariantA.action (VariantA.stamina (VariantA.gameLoop 1000 a)) == 97
  /\ VariantB.max (VariantB.stamina b) == 100
  /\ VariantB.max (VariantB.stamina (VariantB.gameLoop 1000 b)) == 101.5.
Proof. cbv zeta. repeat split; vm_compute; intuition done. Qed.

(** ** The ceiling of the secondary value *)

(** C4. In both variants the update commits as primary value the decayed
    one (clamped to [[0, TOTAL_STAMINA]] in variant A, from below in variant
    B) and as secondary value the drained or recovered one clamped to
    [[0, primary']], where [primary'] is that committed primary value and
    not the one before the decay.  So the secondary value stays within
    [[0, primary']], and while the space bar is up, with an elapsed time
    (and in variant B a recovery rate) that is not negative, a ceiling that
    has come below the old secondary value is the new secondary value. *)
Theorem C4_ceiling_coupling (cfg : gmap string Q) (pressed : bool) (dt : Q)
    (a : VariantA.StaminaState) (b : VariantB.StaminaState) :
  let a' := VariantA.updateStamina cfg pressed dt a in
  let b' := VariantB.updateStamina cfg pressed dt b in
  let newAction :=
    if pressed
    then VariantA.action a - field cfg "actionStaminaDecay" * dt
    else VariantA.action a + VariantA.ACTION_STAMINA_RECOVERY_RATE * dt in
  let newCurrent :=
    if pressed
    then VariantB.current b - field cfg "currentStaminaDecay" * dt
    else VariantB.current b + field cfg "currentStaminaRecovery" * dt in
  (clamped 0 VariantA.TOTAL_STAMINA
     (VariantA.exhaustion a + - field cfg "exhaustionDecay" * dt)
     (VariantA.exhaustion a')
   /\ clamped 0 (VariantA.exhaustion a') newAction (VariantA.action a'))
  /\ (clamped_below 0 (VariantB.max b - field cfg "maxStaminaDecay" * dt)
        (VariantB.max b')
      /\ clamped 0 (VariantB.max b') newCurrent (VariantB.current b'))
  /\ (0 <= VariantA.action a' /\ VariantA.action a' <= VariantA.exhaustion a')
  /\ (0 <= VariantB.current b' /\ VariantB.current b' <= VariantB.max b')
  /\ (pressed = false -> 0 <= dt ->
      VariantA.exhaustion a' < VariantA.action a ->
      VariantA.action a' == VariantA.exhaustion a')
  /\ (pressed = false -> 0 <= dt ->
      0 <= field cfg "currentStaminaRecovery" ->
      VariantB.max b' < VariantB.current b ->
      VariantB.current b' == VariantB.max b').
Proof.
  cbv zeta. unfold clamped, clamped_below, VariantA.updateStamina,
    VariantB.updateStamina, VariantA.TOTAL_STAMINA,
    VariantA.ACTION_STAMINA_RECOVERY_RATE. simpl.
  split; [destruct pressed; prune_clamps|].
  split; [destruct pressed; prune_clamps|].
  split; [destruct pressed; clamps|]. split; [destruct pressed; clamps|].
  split.
  - intros -> Hdt. clamps.
  - intros -> Hdt Hrec. pose proof (product_nonneg _ _ Hrec Hdt).
    set (gain := field cfg "currentStaminaRecovery" * dt) in *.
    clearbody gain. clamps.
Qed.

Lemma C4_ceiling_coupling_witness :
  let cfgA := VariantA.config VariantA.init in
  let cfgB := VariantB.config VariantB.init in
  let a := VariantA.stamina VariantA.init in
  let b := VariantB.stamina VariantB.init in
  (VariantA.exhaustion (VariantA.updateStamina cfgA false 1 a)
     < VariantA.action a
   /\ VariantA.action (VariantA.updateStamina cfgA false 1 a)
      == VariantA.exhaustion (VariantA.updateStamina cfgA false 1 a))
  /\ (VariantB.max (VariantB.updateStamina cfgB false 1 b)
        < VariantB.current b
      /\ VariantB.current (VariantB.updateStamina cfgB false 1 b)
         == VariantB.max (VariantB.updateStamina cfgB false 1 b))
  /\ (VariantA.exhaustion (VariantA.updateStamina cfgA true 1 a)
        == VariantA.exhaustion a + - field cfgA "exhaustionDecay" * 1
      /\ VariantA.action (VariantA.updateStamina cfgA true 1 a)
         == VariantA.action a - field cfgA "actionStaminaDecay" * 1)
  /\ (VariantB.max (VariantB.updateStamina cfgB true 1 b)
        == VariantB.max b - field cfgB "maxStaminaDecay" * 1
      /\ VariantB.current (VariantB.updateStamina cfgB true 1 b)
         == VariantB.current b - field cfgB "currentStaminaDecay" * 1).
Proof.
  intros cfgA cfgB a b.
  assert (Hdt : 0 <= 1) by evaluate.
  assert (Hrec : 0 <= field cfgB "currentStaminaRecovery") by evaluate.
  assert (HA : VariantA.exhaustion (VariantA.updateStamina cfgA false 1 a)
               < VariantA.action a) by (vm_compute; reflexivity).
  assert (HB : VariantB.max (VariantB.updateStamina cfgB false 1 b)
               < VariantB.current b) by (vm_compute; reflexivity).
  destruct (C4_ceiling_coupling cfgA false 1 a b)
    as (_ & _ & _ & _ & HcoupleA & _).
  destruct (C4_ceiling_coupling cfgB false 1 a b)
    as (_ & _ & _ & _ & _ & HcoupleB).
  destruct (C4_ceiling_coupling cfgA true 1 a b)
    as ((HprimaryA & HsecondaryA) & _).
  destruct (C4_ceiling_coupling cfgB true 1 a b)
    as (_ & (HprimaryB & HsecondaryB) & _).
  split; [split; [assumption | exact (HcoupleA eq_refl Hdt HA)]|].
  split; [split; [assumption | exact (HcoupleB eq_refl Hdt Hrec HB)]|].
  split; split.
  - apply (proj1 (proj2 HprimaryA)). vm_compute. split; discriminate.
  - apply (proj1 (proj2 HsecondaryA)). vm_compute. split; discriminate.
  - apply (proj2 HprimaryB). vm_compute. discriminate.
  - apply (proj1 (proj2 HsecondaryB)). vm_compute. split; discriminate.
Defined.

(** ** The first frame *)

(** In variant B a frame without a recorded time runs the update with the
    elapsed time 0, which changes no value of a state within the bounds. *)
Lemma first_frame_B (t : Q) (b : VariantB.App) :
  VariantB.previousTime b = None ->
  0 <= VariantB.current (VariantB.stamina b) ->
  VariantB.current (VariantB.stamina b) <= VariantB.max (VariantB.stamina b) ->
  VariantB.max (VariantB.stamina (VariantB.gameLoop t b))
    == VariantB.max (VariantB.stamina b)
  /\ VariantB.current (VariantB.stamina (VariantB.gameLoop t b))
    == VariantB.current (VariantB.stamina b).
Proof.
  intros Hprev H0 Hle. unfold VariantB.gameLoop. rewrite Hprev. simpl.
  assert (Hz : forall r, r * VariantB.deltaTime t t == 0)
    by (intros r; rewrite deltaTime_same_B; ring).
  pose proof (Hz (field (VariantB.config b) "maxStaminaDecay")).
  pose proof (Hz (field (VariantB.config b) "currentStaminaDecay")).
  pose proof (Hz (field (VariantB.config b) "currentStaminaRecovery")).
  set (x := _ * _) in *. set (y := _ * _) in *. set (z := _ * _) in *.
  clearbody x y z. destruct (VariantB.isSpacePressed b); clamps.
Qed.

(** C5, as the code has it.  In variant A the first frame after the
    construction or after a reset changes nothing but the recorded time,
    whatever its time stamp.  In variant B the first frame after the
    construction records the time and leaves both values at their initial
    numbers, the other cells as they were. *)
Theorem C5_first_frame (t0 : Q) (a : VariantA.App) :
  VariantA.gameLoop t0 VariantA.init
    = {| VariantA.stamina := VariantA.stamina VariantA.init;
         VariantA.isSpacePressed := VariantA.isSpacePressed VariantA.init;
         VariantA.config := VariantA.config VariantA.init;
         VariantA.previousTime := Some t0 |}
  /\ VariantA.gameLoop t0 (VariantA.resetStamina a)
    = {| VariantA.stamina := VariantA.stamina (VariantA.resetStamina a);
         VariantA.isSpacePressed := VariantA.isSpacePressed a;
         VariantA.config := VariantA.config a;
         VariantA.previousTime := Some t0 |}
  /\ VariantB.max (VariantB.stamina (VariantB.gameLoop t0 VariantB.init))
       == VariantB.max (VariantB.stamina VariantB.init)
  /\ VariantB.current (VariantB.stamina (VariantB.gameLoop t0 VariantB.init))
       == VariantB.current (VariantB.stamina VariantB.init)
  /\ VariantB.isSpacePressed (VariantB.gameLoop t0 VariantB.init)
       = VariantB.isSpacePressed VariantB.init
  /\ VariantB.config (VariantB.gameLoop t0 VariantB.init)
       = VariantB.config VariantB.init
  /\ VariantB.previousTime (VariantB.gameLoop t0 VariantB.init) = Some t0.
Proof.
  split; [reflexivity|]. split; [reflexivity|].
  destruct (first_frame_B t0 VariantB.init) as [Hmax Hcur];
    [reflexivity | evaluate | evaluate |].
  by repeat split.
Qed.

(** C5 fails in variant B after a reset: the reset keeps the time recorded
    by the frame at 0, so the frame at 1000 is no first frame and takes the
    maximum from 100 to 98.5. *)
Lemma C5_first_frame_counterexample :
  let b := VariantB.resetStamina (VariantB.gameLoop 0 VariantB.init) in
  VariantB.max (VariantB.stamina b) == 100
  /\ VariantB.max (VariantB.stamina (VariantB.gameLoop 1000 b)) == 98.5
  /\ ~ VariantB.max (VariantB.stamina (VariantB.gameLoop 1000 b))
       == VariantB.max (VariantB.stamina b).
Proof. cbv zeta. repeat split; vm_compute; intuition done. Qed.

(** ** Drain and recovery *)

(** One update of variant B from the full state with the drain rate 30 and
    one second takes the current value to 70, a second one with the
    recovery rate 20 takes it to 90, for every decay rate of the maximum
    from 0 to 5: with a faster decay the ceiling would be under 90. *)
Lemma drain_then_recover_B (cfg : gmap string Q) :
  field cfg "currentStaminaDecay" == 30 ->
  field cfg "currentStaminaRecovery" == 20 ->
  0 <= field cfg "maxStaminaDecay" <= 5 ->
  let s0 := {| VariantB.max := 100; VariantB.current := 100 |} in
  let s1 := VariantB.updateStamina cfg true 1 s0 in
  let s2 := VariantB.updateStamina cfg false 1 s1 in
  VariantB.current s1 == 70 /\ VariantB.current s2 == 90.
Proof.
  intros Hdrain Hrec Hdecay. cbv zeta. unfold VariantB.updateStamina. simpl.
  set (d := field cfg "maxStaminaDecay") in *.
  set (dr := field cfg "currentStaminaDecay") in *.
  set (rc := field cfg "currentStaminaRecovery") in *.
  clearbody d dr rc. clamps.
Qed.

(** C6. Variant B starts at 100 and 100 with the drain rate 30 and the
    recovery rate 20.  After the first frame, a frame one second later with
    the space bar held leaves the current value at 70; the next frame, one
    second later with the space bar released, leaves it at 90. *)
Theorem C6_drain_recover (parseFloat : string -> Q) :
  let s0 := VariantB.init in
  let s1 := VariantB.run parseFloat
              [VariantB.Frame 0; VariantB.KeyDown Space; VariantB.Frame 1000]
              s0 in
  let s2 := VariantB.run parseFloat
              [VariantB.KeyUp Space; VariantB.Frame 2000] s1 in
  (VariantB.max (VariantB.stamina s0) == 100
   /\ VariantB.current (VariantB.stamina s0) == 100
   /\ field (VariantB.config s0) "currentStaminaDecay" == 30
   /\ field (VariantB.config s0) "currentStaminaRecovery" == 20)
  /\ (VariantB.isSpacePressed s1 = true
      /\ VariantB.current (VariantB.stamina s1) == 70)
  /\ (VariantB.isSpacePressed s2 = false
      /\ VariantB.current (VariantB.stamina s2) == 90).
Proof. cbv zeta. repeat split; vm_compute; reflexivity. Qed.

(** ** Decay of the primary value *)

Lemma gameLoop_decay_A (t : Q) (a : VariantA.App) :
  0 <= VariantA.exhaustion (VariantA.stamina a) ->
  0 <= field (VariantA.config a) "exhaustionDecay" ->
  match VariantA.previousTime a with Some p => p <= t | None => True end ->
  0 <= VariantA.exhaustion (VariantA.stamina (VariantA.gameLoop t a))
  /\ VariantA.exhaustion (VariantA.stamina (VariantA.gameLoop t a))
     <= VariantA.exhaustion (VariantA.stamina a).
Proof.
  intros H0 Hd Ht. unfold VariantA.gameLoop.
  destruct (VariantA.previousTime a) as [p|]; simpl; [|lra].
  pose proof (product_nonneg _ _ Hd (deltaTime_nonneg_A _ _ Ht)) as Hloss.
  assert (Hchange : - field (VariantA.config a) "exhaustionDecay"
                      * VariantA.deltaTime t p
                    == - (field (VariantA.config a) "exhaustionDecay"
                          * VariantA.deltaTime t p)) by ring.
  unfold VariantA.TOTAL_STAMINA.
  set (loss := field _ _ * _) in *.
  set (change := - field _ _ * _) in *. clearbody loss change.
  clamps.
Qed.

Lemma gameLoop_decay_B (t : Q) (b : VariantB.App) :
  0 <= VariantB.max (VariantB.stamina b) ->
  0 <= field (VariantB.config b) "maxStaminaDecay" ->
  match VariantB.previousTime b with Some p => p <= t | None => True end ->
  0 <= VariantB.max (VariantB.stamina (VariantB.gameLoop t b))
  /\ VariantB.max (VariantB.stamina (VariantB.gameLoop t b))
     <= VariantB.max (VariantB.stamina b).
Proof.
  intros H0 Hd Ht. unfold VariantB.gameLoop. simpl.
  assert (Hdt : 0 <= VariantB.deltaTime t
            match VariantB.previousTime b with Some p => p | None => t end).
  { destruct (VariantB.previousTime b).
    - by apply deltaTime_nonneg_B.
    - rewrite deltaTime_same_B. lra. }
  pose proof (product_nonneg _ _ Hd Hdt).
  set (loss := _ * _) in *. clearbody loss. clamps.
Qed.

Lemma frames_decay_A (ts : list Q) (a : VariantA.App) :
  0 <= VariantA.exhaustion (VariantA.stamina a) ->
  0 <= field (VariantA.config a) "exhaustionDecay" ->
  monotonic (VariantA.previousTime a) ts ->
  nonincreasing
    (map (fun s => VariantA.exhaustion (VariantA.stamina s))
         (a :: VariantA.frames ts a)).
Proof.
  revert a. induction ts as [|t ts IH]; intros a H0 Hd Hts; [done|].
  destruct Hts as [Ht Hts].
  destruct (gameLoop_decay_A t a H0 Hd Ht) as [H0' Hle].
  split; [exact Hle|]. apply IH; [exact H0'| |].
  - unfold VariantA.gameLoop. by destruct (VariantA.previousTime a).
  - unfold VariantA.gameLoop. by destruct (VariantA.previousTime a).
Qed.

Lemma frames_decay_B (ts : list Q) (b : VariantB.App) :
  0 <= VariantB.max (VariantB.stamina b) ->
  0 <= field (VariantB.config b) "maxStaminaDecay" ->
  monotonic (VariantB.previousTime b) ts ->
  nonincreasing
    (map (fun s => VariantB.max (VariantB.stamina s))
         (b :: VariantB.frames ts b)).
Proof.
  revert b. induction ts as [|t ts IH]; intros b H0 Hd Hts; [done|].
  destruct Hts as [Ht Hts].
  destruct (gameLoop_decay_B t b H0 Hd Ht) as [H0' Hle].
  split; [exact Hle|]. by apply IH.
Qed.

(** C7, as the code has it.  In both variants, from a state within the
    bounds, with the space bar up and a decay rate above 0, the primary
    values along a sequence of frames whose time stamps do not go back
    never increase from one frame to the next. *)
Theorem C7_decay_monotone (ts : list Q) (a : VariantA.App) (b : VariantB.App) :
  (VariantA.invariant (VariantA.stamina a) ->
   VariantA.isSpacePressed a = false ->
   0 < field (VariantA.config a) "exhaustionDecay" ->
   monotonic (VariantA.previousTime a) ts ->
   nonincreasing
     (map (fun s => VariantA.exhaustion (VariantA.stamina s))
          (a :: VariantA.frames ts a)))
  /\ (VariantB.invariant (VariantB.stamina b) ->
   VariantB.isSpacePressed b = false ->
   0 < field (VariantB.config b) "maxStaminaDecay" ->
   monotonic (VariantB.previousTime b) ts ->
   nonincreasing
     (map (fun s => VariantB.max (VariantB.stamina s))
          (b :: VariantB.frames ts b))).
Proof.
  split; intros [H0 [Hle _]] _ Hd Hts.
  - apply frames_decay_A; [lra | lra | exact Hts].
  - apply frames_decay_B; [lra | lra | exact Hts].
Qed.

Lemma C7_decay_monotone_witness :
  let ts := [0; 1000; 2500; 2500; 4000] in
  nonincreasing
    (map (fun s => VariantA.exhaustion (VariantA.stamina s))
         (VariantA.init :: VariantA.frames ts VariantA.init))
  /\ nonincreasing
    (map (fun s => VariantB.max (VariantB.stamina s))
         (VariantB.init :: VariantB.frames ts VariantB.init)).
Proof.
  intros ts. split.
  - apply (proj1 (C7_decay_monotone ts VariantA.init VariantB.init));
      [evaluate | reflexivity | vm_compute; reflexivity | evaluate].
  - apply (proj2 (C7_decay_monotone ts VariantA.init VariantB.init));
      [evaluate | reflexivity | vm_compute; reflexivity | evaluate].
Defined.

(** C7 fails for a time stamp that goes back, with the space bar up, the
    initial decay rates above 0 and states within the bounds: the frame at
    1000 after the one at 2000 takes the exhaustion value of variant A from
    99 to 99.5 and the maximum of variant B from 100 to 101.5. *)
Lemma C7_decay_monotone_counterexample :
  let a := VariantA.gameLoop 2000 (VariantA.gameLoop 0 VariantA.init) in
  let b := VariantB.gameLoop 2000 VariantB.init in
  (VariantA.isSpacePressed a = false
   /\ 0 < field (VariantA.config a) "exhaustionDecay"
   /\ VariantA.invariant (VariantA.stamina a)
   /\ VariantA.exhaustion (VariantA.stamina a) == 99
   /\ VariantA.exhaustion (VariantA.stamina (VariantA.gameLoop 1000 a)) == 99.5
   /\ ~ nonincreasing
         (map (fun s => VariantA.exhaustion (VariantA.stamina s))
              (a :: VariantA.frames [1000] a)))
  /\ (VariantB.isSpacePressed b = false
   /\ 0 < field (VariantB.config b) "maxStaminaDecay"
   /\ VariantB.invariant (VariantB.stamina b)
   /\ VariantB.max (VariantB.stamina b) == 100
   /\ VariantB.max (VariantB.stamina (VariantB.gameLoop 1000 b)) == 101.5
   /\ ~ nonincreasing
         (map (fun s => VariantB.max (VariantB.stamina s))
              (b :: VariantB.frames [1000] b))).
Proof.
  cbv zeta. repeat split; vm_compute; intuition done.
Qed.

(** ** Reset twice, and what a reset leaves alone *)

(** C8. In both variants a second [resetStamina] changes nothing: the
    whole component state, recorded time included, is the one after the
    first.  A reset leaves the configuration and the key flag as they
    were. *)
Theorem C8_reset_idempotent (a : VariantA.App) (b : VariantB.App) :
  VariantA.resetStamina (VariantA.resetStamina a) = VariantA.resetStamina a
  /\ VariantA.config (VariantA.resetStamina a) = VariantA.config a
  /\ VariantA.isSpacePressed (VariantA.resetStamina a)
     = VariantA.isSpacePressed a
  /\ VariantB.resetStamina (VariantB.resetStamina b) = VariantB.resetStamina b
  /\ VariantB.config (VariantB.resetStamina b) = VariantB.config b
  /\ VariantB.isSpacePressed (VariantB.resetStamina b)
     = VariantB.isSpacePressed b.
Proof. repeat split. Qed.

(** ** Changing one parameter *)

(** C9. In both variants [handleConfigChange] gives the property named by
    the event the parsed value and leaves every other property of the
    configuration as it was. *)
Theorem C9_config_frame (parseFloat : string -> Q) (e : ChangeEvent)
    (a : VariantA.App) (b : VariantB.App) (k : string) :
  VariantA.config (VariantA.handleConfigChange parseFloat e a) !! name e
    = Some (parseFloat (value e))
  /\ (k <> name e ->
      VariantA.config (VariantA.handleConfigChange parseFloat e a) !! k
      = VariantA.config a !! k)
  /\ VariantB.config (VariantB.handleConfigChange parseFloat e b) !! name e
    = Some (parseFloat (value e))
  /\ (k <> name e ->
      VariantB.config (VariantB.handleConfigChange parseFloat e b) !! k
      = VariantB.config b !! k).
Proof.
  simpl. repeat split.
  - apply lookup_insert_eq.
  - intros Hk. by apply lookup_insert_ne.
  - apply lookup_insert_eq.
  - intros Hk. by apply lookup_insert_ne.
Qed.

Lemma C9_config_frame_witness :
  let parseFloat := fun _ : string => 7.5 in
  let eA := {| name := "exhaustionDecay"; value := "7.5" |} in
  let eB := {| name := "currentStaminaDecay"; value := "7.5" |} in
  ("actionStaminaDecay" <> name eA
   /\ field (VariantA.config
               (VariantA.handleConfigChange parseFloat eA VariantA.init))
        "actionStaminaDecay" = 3.0)
  /\ ("maxStaminaDecay" <> name eB
   /\ field (VariantB.config
               (VariantB.handleConfigChange parseFloat eB VariantB.init))
        "maxStaminaDecay" = 1.5).
Proof.
  intros parseFloat eA eB.
  assert (HA : "actionStaminaDecay" <> name eA) by discriminate.
  assert (HB : "maxStaminaDecay" <> name eB) by discriminate.
  split; (split; [assumption|]); unfold field.
  - rewrite (proj1 (proj2 (C9_config_frame parseFloat eA VariantA.init
                             VariantB.init "actionStaminaDecay")) HA).
    reflexivity.
  - rewrite (proj2 (proj2 (proj2 (C9_config_frame parseFloat eB VariantA.init
                             VariantB.init "maxStaminaDecay"))) HB).
    reflexivity.
Defined.

(** ** The ratio shown by the gradient of variant A *)

(** The ratio is a number in every state: the division is only reached
    with a divisor above 0. *)
Lemma actionRelativeToExhaustionPercent_defined (s : VariantA.StaminaState) :
  is_Some (VariantA.actionRelativeToExhaustionPercent s).
Proof.
  unfold VariantA.actionRelativeToExhaustionPercent, divide.
  destruct (Qlt_le_dec 0 (VariantA.exhaustion s)) as [Hpos|Hle]; [|by eexists].
  destruct (Qeq_dec (VariantA.exhaustion s) 0) as [Hz|Hnz]; [lra|by eexists].
Qed.

(** C10. In variant A, in a state whose exhaustion value is 0 the ratio of
    the action value to the exhaustion value is 0, with no division. *)
Theorem C10_ratio_guard (s : VariantA.StaminaState) :
  VariantA.exhaustion s == 0 ->
  VariantA.actionRelativeToExhaustionPercent s = Some 0.
Proof.
  intros Hz. unfold VariantA.actionRelativeToExhaustionPercent.
  destruct (Qlt_le_dec 0 (VariantA.exhaustion s)) as [Hpos|Hle]; [lra|done].
Qed.

Lemma C10_ratio_guard_witness :
  let s := {| VariantA.exhaustion := 0; VariantA.action := 0 |} in
  VariantA.exhaustion s == 0
  /\ VariantA.actionRelativeToExhaustionPercent s = Some 0.
Proof.
  intros s.
  assert (Hz : VariantA.exhaustion s == 0) by reflexivity.
  split; [exact Hz | exact (C10_ratio_guard s Hz)].
Defined.

(** ** Further properties of the update *)

(** X3. A frame stamped with the recorded time itself changes no value of
    a state within the bounds, in both variants and for every
    configuration and key state. *)
Theorem frame_same_time (t : Q) (a : VariantA.App) (b : VariantB.App) :
  (VariantA.previousTime a = Some t ->
   VariantA.invariant (VariantA.stamina a) ->
   same_A (VariantA.stamina (VariantA.gameLoop t a)) (VariantA.stamina a))
  /\ (VariantB.previousTime b = Some t ->
   VariantB.invariant (VariantB.stamina b) ->
   same_B (VariantB.stamina (VariantB.gameLoop t b)) (VariantB.stamina b)).
Proof.
  split; intros Hp (H0 & Hle & Hcap).
  - unfold VariantA.gameLoop. rewrite Hp.
    unfold same_A, VariantA.updateStamina, VariantA.TOTAL_STAMINA,
      VariantA.ACTION_STAMINA_RECOVERY_RATE in *. simpl.
    assert (Hz : forall r, r * VariantA.deltaTime t t == 0)
      by (intros r; rewrite deltaTime_same_B; ring).
    pose proof (Hz (- field (VariantA.config a) "exhaustionDecay")).
    pose proof (Hz (field (VariantA.config a) "actionStaminaDecay")).
    pose proof (Hz (20 # 10)).
    set (x := - _ * _) in *. set (y := field _ _ * _) in *.
    set (z := (20 # 10) * _) in *. clearbody x y z.
    destruct (VariantA.isSpacePressed a); prune_clamps.
  - unfold VariantB.gameLoop. rewrite Hp.
    unfold same_B, VariantB.updateStamina in *. simpl.
    assert (Hz : forall r, r * VariantB.deltaTime t t == 0)
      by (intros r; rewrite deltaTime_same_B; ring).
    pose proof (Hz (field (VariantB.config b) "maxStaminaDecay")).
    pose proof (Hz (field (VariantB.config b) "currentStaminaDecay")).
    pose proof (Hz (field (VariantB.config b) "currentStaminaRecovery")).
    set (x := _ * _) in *. set (y := _ * _) in *. set (z := _ * _) in *.
    clearbody x y z.
    destruct (VariantB.isSpacePressed b); prune_clamps.
Qed.

Lemma frame_same_time_witness :
  let a := VariantA.gameLoop 1000 (VariantA.gameLoop 0 VariantA.init) in
  let b := VariantB.gameLoop 1000 (VariantB.gameLoop 0 VariantB.init) in
  same_A (VariantA.stamina (VariantA.gameLoop 1000 a)) (VariantA.stamina a)
  /\ same_B (VariantB.stamina (VariantB.gameLoop 1000 b)) (VariantB.stamina b).
Proof.
  intros a b. split.
  - apply (proj1 (frame_same_time 1000 a b)); [reflexivity | evaluate].
  - apply (proj2 (frame_same_time 1000 a b)); [reflexivity | evaluate].
Defined.

Lemma updateStamina_full_decay_A cfg pressed (dt : Q) a :
  VariantA.exhaustion a <= field cfg "exhaustionDecay" * dt ->
  same_A (VariantA.updateStamina cfg pressed dt a)
         {| VariantA.exhaustion := 0; VariantA.action := 0 |}.
Proof.
  intros Hall.
  unfold same_A, VariantA.updateStamina, VariantA.TOTAL_STAMINA. simpl.
  assert (Hchange : - field cfg "exhaustionDecay" * dt
                    == - (field cfg "exhaustionDecay" * dt)) by ring.
  set (loss := field _ _ * _) in *.
  set (change := - field _ _ * _) in *. clearbody loss change.
  destruct pressed; prune_clamps.
Qed.

Lemma updateStamina_full_decay_B cfg pressed (dt : Q) b :
  VariantB.max b <= field cfg "maxStaminaDecay" * dt ->
  same_B (VariantB.updateStamina cfg pressed dt b)
         {| VariantB.max := 0; VariantB.current := 0 |}.
Proof.
  intros Hall. unfold same_B, VariantB.updateStamina. simpl.
  set (loss := field cfg "maxStaminaDecay" * _) in *. clearbody loss.
  destruct pressed; prune_clamps.
Qed.

(** X4. In both variants, when the decay over the elapsed time takes at
    least the whole primary value, the update leaves both values at 0,
    whatever the secondary value, its rates and the key state were. *)
Theorem full_decay (cfg : gmap string Q) (pressed : bool) (dt : Q)
    (a : VariantA.StaminaState) (b : VariantB.StaminaState) :
  (VariantA.exhaustion a <= field cfg "exhaustionDecay" * dt ->
   same_A (VariantA.updateStamina cfg pressed dt a)
          {| VariantA.exhaustion := 0; VariantA.action := 0 |})
  /\ (VariantB.max b <= field cfg "maxStaminaDecay" * dt ->
   same_B (VariantB.updateStamina cfg pressed dt b)
          {| VariantB.max := 0; VariantB.current := 0 |}).
Proof.
  split.
  - apply updateStamina_full_decay_A.
  - apply updateStamina_full_decay_B.
Qed.

Lemma full_decay_witness :
  let cfgA := <["exhaustionDecay" := 5]> (VariantA.config VariantA.init) in
  let cfgB := <["maxStaminaDecay" := 5]> (VariantB.config VariantB.init) in
  same_A (VariantA.updateStamina cfgA false 25 (VariantA.stamina VariantA.init))
         {| VariantA.exhaustion := 0; VariantA.action := 0 |}
  /\ same_B (VariantB.updateStamina cfgB false 25
               (VariantB.stamina VariantB.init))
            {| VariantB.max := 0; VariantB.current := 0 |}.
Proof.
  intros cfgA cfgB. split.
  - apply (proj1 (full_decay cfgA false 25 (VariantA.stamina VariantA.init)
                    (VariantB.stamina VariantB.init))). evaluate.
  - apply (proj2 (full_decay cfgB false 25 (VariantA.stamina VariantA.init)
                    (VariantB.stamina VariantB.init))). evaluate.
Defined.

Lemma gameLoop_exhausted_A (t : Q) (a : VariantA.App) :
  VariantA.exhaustion (VariantA.stamina a) == 0 ->
  VariantA.action (VariantA.stamina a) == 0 ->
  0 <= field (VariantA.config a) "exhaustionDecay" ->
  match VariantA.previousTime a with Some p => p <= t | None => True end ->
  VariantA.exhaustion (VariantA.stamina (VariantA.gameLoop t a)) == 0
  /\ VariantA.action (VariantA.stamina (VariantA.gameLoop t a)) == 0.
Proof.
  intros He Ha Hd Ht. unfold VariantA.gameLoop.
  destruct (VariantA.previousTime a) as [p|]; simpl; [|done].
  apply updateStamina_full_decay_A.
  rewrite He. by apply product_nonneg, deltaTime_nonneg_A.
Qed.

Lemma gameLoop_exhausted_B (t : Q) (b : VariantB.App) :
  VariantB.max (VariantB.stamina b) == 0 ->
  0 <= field (VariantB.config b) "maxStaminaDecay" ->
  match VariantB.previousTime b with Some p => p <= t | None => True end ->
  VariantB.max (VariantB.stamina (VariantB.gameLoop t b)) == 0
  /\ VariantB.current (VariantB.stamina (VariantB.gameLoop t b)) == 0.
Proof.
  intros He Hd Ht. unfold VariantB.gameLoop. simpl.
  apply updateStamina_full_decay_B.
  rewrite He. apply product_nonneg; [done|].
  destruct (VariantB.previousTime b).
  - by apply deltaTime_nonneg_B.
  - rewrite deltaTime_same_B. lra.
Qed.

Lemma frames_exhausted_A (ts : list Q) (a : VariantA.App) :
  VariantA.exhaustion (VariantA.stamina a) == 0 ->
  VariantA.action (VariantA.stamina a) == 0 ->
  0 <= field (VariantA.config a) "exhaustionDecay" ->
  monotonic (VariantA.previousTime a) ts ->
  Forall (fun s => same_A (VariantA.stamina s)
                     {| VariantA.exhaustion := 0; VariantA.action := 0 |})
         (VariantA.frames ts a).
Proof.
  revert a. induction ts as [|t ts IH]; intros a He Ha Hd Hts; simpl;
    [constructor|].
  destruct Hts as [Ht Hts].
  destruct (gameLoop_exhausted_A t a He Ha Hd Ht) as [He' Ha'].
  constructor; [by split|]. apply IH; try done.
  - unfold VariantA.gameLoop. by destruct (VariantA.previousTime a).
  - unfold VariantA.gameLoop. by destruct (VariantA.previousTime a).
Qed.

Lemma frames_exhausted_B (ts : list Q) (b : VariantB.App) :
  VariantB.max (VariantB.stamina b) == 0 ->
  0 <= field (VariantB.config b) "maxStaminaDecay" ->
  monotonic (VariantB.previousTime b) ts ->
  Forall (fun s => same_B (VariantB.stamina s)
                     {| VariantB.max := 0; VariantB.current := 0 |})
         (VariantB.frames ts b).
Proof.
  revert b. induction ts as [|t ts IH]; intros b He Hd Hts; simpl;
    [constructor|].
  destruct Hts as [Ht Hts].
  destruct (gameLoop_exhausted_B t b He Hd Ht) as [He' Ha'].
  constructor; [by split|]. by apply IH.
Qed.

(** X5. Exhaustion is final for the loop: in both variants, from a state
    within the bounds whose primary value is 0, with a decay rate that is
    not negative, every frame of a sequence whose time stamps do not go
    back leaves both values at 0, whatever the keys do in the state. *)
Theorem exhausted_stays (ts : list Q) (a : VariantA.App) (b : VariantB.App) :
  (VariantA.invariant (VariantA.stamina a) ->
   VariantA.exhaustion (VariantA.stamina a) == 0 ->
   0 <= field (VariantA.config a) "exhaustionDecay" ->
   monotonic (VariantA.previousTime a) ts ->
   Forall (fun s => same_A (VariantA.stamina s)
                      {| VariantA.exhaustion := 0; VariantA.action := 0 |})
          (VariantA.frames ts a))
  /\ (VariantB.invariant (VariantB.stamina b) ->
   VariantB.max (VariantB.stamina b) == 0 ->
   0 <= field (VariantB.config b) "maxStaminaDecay" ->
   monotonic (VariantB.previousTime b) ts ->
   Forall (fun s => same_B (VariantB.stamina s)
                      {| VariantB.max := 0; VariantB.current := 0 |})
          (VariantB.frames ts b)).
Proof.
  split; intros (H0 & Hle & _) He Hd Hts.
  - apply frames_exhausted_A; try done. lra.
  - by apply frames_exhausted_B.
Qed.

Lemma exhausted_stays_witness :
  let ts := [0; 16; 33; 1000] in
  let a := {| VariantA.stamina :=
                {| VariantA.exhaustion := 0; VariantA.action := 0 |};
              VariantA.isSpacePressed := true;
              VariantA.config := VariantA.config VariantA.init;
              VariantA.previousTime := None |} in
  let b := {| VariantB.stamina :=
                {| VariantB.max := 0; VariantB.current := 0 |};
              VariantB.isSpacePressed := false;
              VariantB.config := VariantB.config VariantB.init;
              VariantB.previousTime := Some 0 |} in
  Forall (fun s => same_A (VariantA.stamina s)
                     {| VariantA.exhaustion := 0; VariantA.action := 0 |})
         (VariantA.frames ts a)
  /\ Forall (fun s => same_B (VariantB.stamina s)
                     {| VariantB.max := 0; VariantB.current := 0 |})
         (VariantB.frames ts b).
Proof.
  intros ts a b. split.
  - apply (proj1 (exhausted_stays ts a b)); evaluate.
  - apply (proj2 (exhausted_stays ts a b)); evaluate.
Defined.

(** ** Drain and recovery along the frames *)

Lemma gameLoop_drain_A (t : Q) (a : VariantA.App) :
  VariantA.isSpacePressed a = true ->
  0 <= VariantA.action (VariantA.stamina a) ->
  0 <= field (VariantA.config a) "actionStaminaDecay" ->
  match VariantA.previousTime a with Some p => p <= t | None => True end ->
  0 <= VariantA.action (VariantA.stamina (VariantA.gameLoop t a))
  /\ VariantA.action (VariantA.stamina (VariantA.gameLoop t a))
     <= VariantA.action (VariantA.stamina a).
Proof.
  intros Hk H0 Hd Ht. unfold VariantA.gameLoop.
  destruct (VariantA.previousTime a) as [p|]; simpl; [|lra].
  rewrite Hk.
  pose proof (product_nonneg _ _ Hd (deltaTime_nonneg_A _ _ Ht)).
  set (loss := field _ "actionStaminaDecay" * _) in *. clearbody loss.
  prune_clamps.
Qed.

Lemma gameLoop_drain_B (t : Q) (b : VariantB.App) :
  VariantB.isSpacePressed b = true ->
  0 <= VariantB.current (VariantB.stamina b) ->
  0 <= field (VariantB.config b) "currentStaminaDecay" ->
  match VariantB.previousTime b with Some p => p <= t | None => True end ->
  0 <= VariantB.current (VariantB.stamina (VariantB.gameLoop t b))
  /\ VariantB.current (VariantB.stamina (VariantB.gameLoop t b))
     <= VariantB.current (VariantB.stamina b).
Proof.
  intros Hk H0 Hd Ht. unfold VariantB.gameLoop. simpl. rewrite Hk.
  assert (Hdt : 0 <= VariantB.deltaTime t
            match VariantB.previousTime b with Some p => p | None => t end).
  { destruct (VariantB.previousTime b).
    - by apply deltaTime_nonneg_B.
    - rewrite deltaTime_same_B. lra. }
  pose proof (product_nonneg _ _ Hd Hdt).
  set (loss := field _ "currentStaminaDecay" * _) in *. clearbody loss.
  prune_clamps.
Qed.

Lemma frames_drain_A (ts : list Q) (a : VariantA.App) :
  VariantA.isSpacePressed a = true ->
  0 <= VariantA.action (VariantA.stamina a) ->
  0 <= field (VariantA.config a) "actionStaminaDecay" ->
  monotonic (VariantA.previousTime a) ts ->
  nonincreasing
    (map (fun s => VariantA.action (VariantA.stamina s))
         (a :: VariantA.frames ts a)).
Proof.
  revert a. induction ts as [|t ts IH]; intros a Hk H0 Hd Hts; [done|].
  destruct Hts as [Ht Hts].
  destruct (gameLoop_drain_A t a Hk H0 Hd Ht) as [H0' Hle].
  split; [exact Hle|]. apply IH; [|exact H0'| |];
    unfold VariantA.gameLoop; by destruct (VariantA.previousTime a).
Qed.

Lemma frames_drain_B (ts : list Q) (b : VariantB.App) :
  VariantB.isSpacePressed b = true ->
  0 <= VariantB.current (VariantB.stamina b) ->
  0 <= field (VariantB.config b) "currentStaminaDecay" ->
  monotonic (VariantB.previousTime b) ts ->
  nonincreasing
    (map (fun s => VariantB.current (VariantB.stamina s))
         (b :: VariantB.frames ts b)).
Proof.
  revert b. induction ts as [|t ts IH]; intros b Hk H0 Hd Hts; [done|].
  destruct Hts as [Ht Hts].
  destruct (gameLoop_drain_B t b Hk H0 Hd Ht) as [H0' Hle].
  split; [exact Hle|]. by apply IH.
Qed.

(** X6. While the space bar is held, with a drain rate that is not negative
    and frames whose time stamps do not go back, the secondary value never
    increases from one frame to the next, in both variants and whatever
    the ceiling does. *)
Theorem drain_monotone (ts : list Q) (a : VariantA.App) (b : VariantB.App) :
  (VariantA.isSpacePressed a = true ->
   0 <= VariantA.action (VariantA.stamina a) ->
   0 <= field (VariantA.config a) "actionStaminaDecay" ->
   monotonic (VariantA.previousTime a) ts ->
   nonincreasing
     (map (fun s => VariantA.action (VariantA.stamina s))
          (a :: VariantA.frames ts a)))
  /\ (VariantB.isSpacePressed b = true ->
   0 <= VariantB.current (VariantB.stamina b) ->
   0 <= field (VariantB.config b) "currentStaminaDecay" ->
   monotonic (VariantB.previousTime b) ts ->
   nonincreasing
     (map (fun s => VariantB.current (VariantB.stamina s))
          (b :: VariantB.frames ts b))).
Proof.
  split.
  - apply frames_drain_A.
  - apply frames_drain_B.
Qed.

Lemma drain_monotone_witness :
  let ts := [0; 1000; 2500; 2500; 60000] in
  let a := VariantA.handleKeyDown Space VariantA.init in
  let b := VariantB.handleKeyDown Space VariantB.init in
  nonincreasing
    (map (fun s => VariantA.action (VariantA.stamina s))
         (a :: VariantA.frames ts a))
  /\ nonincreasing
    (map (fun s => VariantB.current (VariantB.stamina s))
         (b :: VariantB.frames ts b)).
Proof.
  intros ts a b. split.
  - apply (proj1 (drain_monotone ts a b)); [reflexivity | evaluate ..].
  - apply (proj2 (drain_monotone ts a b)); [reflexivity | evaluate ..].
Defined.

(** X7. While the space bar is up, with an elapsed time (and in variant B
    a recovery rate) that is not negative, an update never takes the
    secondary value below the lesser of its old value and the new ceiling:
    it rises or stays, or it lands on the ceiling. *)
Theorem recovery_floor (cfg : gmap string Q) (dt : Q)
    (a : VariantA.StaminaState) (b : VariantB.StaminaState) :
  (0 <= dt -> 0 <= VariantA.action a ->
   Math.min (VariantA.action a)
            (VariantA.exhaustion (VariantA.updateStamina cfg false dt a))
   <= VariantA.action (VariantA.updateStamina cfg false dt a))
  /\ (0 <= dt -> 0 <= field cfg "currentStaminaRecovery" ->
   0 <= VariantB.current b ->
   Math.min (VariantB.current b)
            (VariantB.max (VariantB.updateStamina cfg false dt b))
   <= VariantB.current (VariantB.updateStamina cfg false dt b)).
Proof.
  split.
  - intros Hdt H0.
    unfold VariantA.updateStamina, VariantA.TOTAL_STAMINA,
      VariantA.ACTION_STAMINA_RECOVERY_RATE. simpl. prune_clamps.
  - intros Hdt Hr H0. pose proof (product_nonneg _ _ Hr Hdt).
    unfold VariantB.updateStamina. simpl.
    set (gain := field cfg "currentStaminaRecovery" * dt) in *.
    clearbody gain. prune_clamps.
Qed.

Lemma recovery_floor_witness :
  let cfgA := VariantA.config VariantA.init in
  let cfgB := VariantB.config VariantB.init in
  let a := {| VariantA.exhaustion := 80; VariantA.action := 10 |} in
  let b := {| VariantB.max := 80; VariantB.current := 10 |} in
  Math.min (VariantA.action a)
           (VariantA.exhaustion (VariantA.updateStamina cfgA false 2 a))
  <= VariantA.action (VariantA.updateStamina cfgA false 2 a)
  /\ Math.min (VariantB.current b)
           (VariantB.max (VariantB.updateStamina cfgB false 2 b))
  <= VariantB.current (VariantB.updateStamina cfgB false 2 b).
Proof.
  intros cfgA cfgB a b. split.
  - apply (proj1 (recovery_floor cfgA 2 a b)); evaluate.
  - apply (proj2 (recovery_floor cfgB 2 a b)); evaluate.
Defined.

(** ** Which events write which cell *)

Lemma dispatch_ignored_A parseFloat ev (a : VariantA.App) :
  ignored_A ev -> VariantA.dispatch parseFloat ev a = a.
Proof.
  destruct ev as [t|e|e|e|]; simpl; try done.
  - unfold VariantA.handleKeyDown. intros [Hc|Hr].
    + apply String.eqb_neq in Hc. by rewrite Hc.
    + rewrite Hr. by rewrite andb_false_r.
  - unfold VariantA.handleKeyUp. intros Hc.
    apply String.eqb_neq in Hc. by rewrite Hc.
Qed.

Lemma dispatch_ignored_B parseFloat ev (b : VariantB.App) :
  ignored_B ev -> VariantB.dispatch parseFloat ev b = b.
Proof.
  destruct ev as [t|e|e|e|]; simpl; try done.
  - unfold VariantB.handleKeyDown. intros [Hc|Hr].
    + apply String.eqb_neq in Hc. by rewrite Hc.
    + rewrite Hr. by rewrite andb_false_r.
  - unfold VariantB.handleKeyUp. intros Hc.
    apply String.eqb_neq in Hc. by rewrite Hc.
Qed.

(** X8. Key repeat and other keys do nothing: in both variants a trace
    made of key-down events that are repeats or not of the space bar, and
    of key-up events not of the space bar, leaves the whole component
    state as it was, the key flag included. *)
Theorem ignored_keys (parseFloat : string -> Q)
    (evsA : list VariantA.Event) (evsB : list VariantB.Event)
    (a : VariantA.App) (b : VariantB.App) :
  (Forall ignored_A evsA -> VariantA.run parseFloat evsA a = a)
  /\ (Forall ignored_B evsB -> VariantB.run parseFloat evsB b = b).
Proof.
  split.
  - induction 1 as [|ev evs Hev _ IH]; simpl; [done|].
    by rewrite dispatch_ignored_A.
  - induction 1 as [|ev evs Hev _ IH]; simpl; [done|].
    by rewrite dispatch_ignored_B.
Qed.

Lemma ignored_keys_witness :
  let parseFloat := fun _ : string => 0 in
  let held := {| code := "Space"; repeat := true |} in
  let other := {| code := "KeyW"; repeat := false |} in
  let a := VariantA.handleKeyDown Space VariantA.init in
  let b := VariantB.handleKeyDown Space VariantB.init in
  VariantA.run parseFloat
    [VariantA.KeyDown held; VariantA.KeyDown other; VariantA.KeyUp other;
     VariantA.KeyDown held] a = a
  /\ VariantB.run parseFloat
    [VariantB.KeyDown held; VariantB.KeyDown other; VariantB.KeyUp other;
     VariantB.KeyDown held] b = b.
Proof.
  intros parseFloat held other a b. split.
  - apply (proj1 (ignored_keys parseFloat _ [] a b)).
    repeat constructor; simpl; (by right) || (by left) || done.
  - apply (proj2 (ignored_keys parseFloat [] _ a b)).
    repeat constructor; simpl; (by right) || (by left) || done.
Defined.

Lemma dispatch_quiet_A parseFloat ev (a : VariantA.App) :
  quiet_A ev ->
  VariantA.stamina (VariantA.dispatch parseFloat ev a) = VariantA.stamina a.
Proof.
  destruct ev as [t|e|e|e|]; simpl; try done.
  - unfold VariantA.handleKeyDown. by destruct (_ && _).
  - unfold VariantA.handleKeyUp. by destruct (_ =? _)%string.
Qed.

Lemma dispatch_quiet_B parseFloat ev (b : VariantB.App) :
  quiet_B ev ->
  VariantB.stamina (VariantB.dispatch parseFloat ev b) = VariantB.stamina b.
Proof.
  destruct ev as [t|e|e|e|]; simpl; try done.
  - unfold VariantB.handleKeyDown. by destruct (_ && _).
  - unfold VariantB.handleKeyUp. by destruct (_ =? _)%string.
Qed.

(** X9. Only a frame or a click on the reset button writes the stamina
    values: in both variants a trace of key events and slider changes, of
    any length and in any order, leaves both values as they were. *)
Theorem stamina_written_by_frames_and_reset (parseFloat : string -> Q)
    (evsA : list VariantA.Event) (evsB : list VariantB.Event)
    (a : VariantA.App) (b : VariantB.App) :
  (Forall quiet_A evsA ->
   VariantA.stamina (VariantA.run parseFloat evsA a) = VariantA.stamina a)
  /\ (Forall quiet_B evsB ->
   VariantB.stamina (VariantB.run parseFloat evsB b) = VariantB.stamina b).
Proof.
  split.
  - intros H. revert a. induction H as [|ev evs Hev _ IH]; intros a; simpl;
      [done|]. by rewrite IH, dispatch_quiet_A.
  - intros H. revert b. induction H as [|ev evs Hev _ IH]; intros b; simpl;
      [done|]. by rewrite IH, dispatch_quiet_B.
Qed.

Lemma stamina_written_by_frames_and_reset_witness :
  let parseFloat := fun _ : string => 9 in
  let a := VariantA.gameLoop 500 (VariantA.gameLoop 0 VariantA.init) in
  let b := VariantB.gameLoop 500 (VariantB.gameLoop 0 VariantB.init) in
  let e := {| name := "exhaustionDecay"; value := "9" |} in
  VariantA.stamina
    (VariantA.run parseFloat
       [VariantA.KeyDown Space; VariantA.Change e; VariantA.KeyUp Space] a)
    = VariantA.stamina a
  /\ VariantB.stamina
    (VariantB.run parseFloat
       [VariantB.KeyDown Space; VariantB.Change e; VariantB.KeyUp Space] b)
    = VariantB.stamina b.
Proof.
  intros parseFloat a b e. split.
  - apply (proj1 (stamina_written_by_frames_and_reset parseFloat _ [] a b)).
    by repeat constructor.
  - apply (proj2 (stamina_written_by_frames_and_reset parseFloat [] _ a b)).
    by repeat constructor.
Defined.

(** X10. No time is charged across a change of the configuration.  After
    a slider change the next frame, whatever its time stamp, only records
    the time in variant A; in variant B it runs the update with the elapsed
    time 0, which leaves the values of a state within the bounds as they
    were.  The new rates act from the frame after that one. *)
Theorem change_discards_elapsed (parseFloat : string -> Q) (e : ChangeEvent)
    (t : Q) (a : VariantA.App) (b : VariantB.App) :
  (VariantA.stamina
     (VariantA.run parseFloat [VariantA.Change e; VariantA.Frame t] a)
   = VariantA.stamina a
   /\ VariantA.previousTime
        (VariantA.run parseFloat [VariantA.Change e; VariantA.Frame t] a)
      = Some t)
  /\ (VariantB.invariant (VariantB.stamina b) ->
      same_B (VariantB.stamina
                (VariantB.run parseFloat [VariantB.Change e; VariantB.Frame t] b))
             (VariantB.stamina b)
      /\ VariantB.previousTime
           (VariantB.run parseFloat [VariantB.Change e; VariantB.Frame t] b)
         = Some t).
Proof.
  split; [by split|]. intros (H0 & Hle & _). split; [|done]. simpl.
  apply (first_frame_B t
           (VariantB.cleanup (VariantB.handleConfigChange parseFloat e b)));
    done.
Qed.

Lemma change_discards_elapsed_witness :
  let parseFloat := fun _ : string => 10 in
  let e := {| name := "maxStaminaDecay"; value := "10" |} in
  let b := VariantB.gameLoop 500 (VariantB.gameLoop 0 VariantB.init) in
  same_B (VariantB.stamina
            (VariantB.run parseFloat
               [VariantB.Change e; VariantB.Frame 90000] b))
         (VariantB.stamina b)
  /\ VariantB.previousTime
       (VariantB.run parseFloat [VariantB.Change e; VariantB.Frame 90000] b)
     = Some 90000.
Proof.
  intros parseFloat e b.
  apply (proj2 (change_discards_elapsed parseFloat e 90000 VariantA.init b)).
  evaluate.
Defined.

(** ** The sliders *)

Lemma in_range_insert (cfg : gmap string Q) (k n : string) (v lo hi : Q)
    (l u : string) (st : Q) :
  (k = n -> lo <= v <= hi) ->
  in_range cfg
    {| SliderControl.label := l; SliderControl.value := field cfg n;
       SliderControl.min := lo; SliderControl.max := hi;
       SliderControl.step := st; SliderControl.unit := u;
       SliderControl.name := n |} ->
  in_range (<[k := v]> cfg)
    {| SliderControl.label := l;
       SliderControl.value := field (<[k := v]> cfg) n;
       SliderControl.min := lo; SliderControl.max := hi;
       SliderControl.step := st; SliderControl.unit := u;
       SliderControl.name := n |}.
Proof.
  unfold in_range. simpl. intros Hk [Hlook Hr].
  rewrite field_insert, lookup_insert. case_decide; [|done].
  split; [done|]. by apply Hk.
Qed.

Lemma ranged_change_A parseFloat e (a : VariantA.App) :
  ranged_A (VariantA.config a) ->
  Exists (from_slider parseFloat e) (VariantA.sliders (VariantA.config a)) ->
  ranged_A (VariantA.config (VariantA.handleConfigChange parseFloat e a)).
Proof.
  intros [Hr Hdom] Hex. simpl. unfold VariantA.sliders in *.
  apply Forall_cons in Hr as [H1 Hr]. apply Forall_cons in Hr as [H2 _].
  rewrite !Exists_cons, Exists_nil in Hex. unfold from_slider in Hex.
  simpl in Hex. split.
  - repeat constructor; (apply in_range_insert; [intros Hn|done]);
      destruct Hex as [[Hn' ?]|[[Hn' ?]|[]]]; rewrite Hn in Hn'; done.
  - rewrite <- Hdom. apply dom_insert_lookup_L.
    destruct H1 as [Hl1 _], H2 as [Hl2 _]. simpl in *.
    destruct Hex as [[-> ?]|[[-> ?]|[]]]; by eexists.
Qed.

Lemma ranged_change_B parseFloat e (b : VariantB.App) :
  ranged_B (VariantB.config b) ->
  Exists (from_slider parseFloat e) (VariantB.sliders (VariantB.config b)) ->
  ranged_B (VariantB.config (VariantB.handleConfigChange parseFloat e b)).
Proof.
  intros [Hr Hdom] Hex. simpl. unfold VariantB.sliders in *.
  apply Forall_cons in Hr as [H1 Hr]. apply Forall_cons in Hr as [H2 Hr].
  apply Forall_cons in Hr as [H3 _].
  rewrite !Exists_cons, Exists_nil in Hex. unfold from_slider in Hex.
  simpl in Hex. split.
  - repeat constructor; (apply in_range_insert; [intros Hn|done]);
      destruct Hex as [[Hn' ?]|[[Hn' ?]|[[Hn' ?]|[]]]]; rewrite Hn in Hn'; done.
  - rewrite <- Hdom. apply dom_insert_lookup_L.
    destruct H1 as [Hl1 _], H2 as [Hl2 _], H3 as [Hl3 _]. simpl in *.
    destruct Hex as [[-> ?]|[[-> ?]|[[-> ?]|[]]]]; by eexists.
Qed.

Lemma run_ranged_A parseFloat evs (a : VariantA.App) :
  ranged_A (VariantA.config a) -> slider_trace_A parseFloat evs a ->
  ranged_A (VariantA.config (VariantA.run parseFloat evs a)).
Proof.
  revert a. induction evs as [|ev evs IH]; intros a Hr Htr; simpl; [done|].
  destruct Htr as [Hev Htr]. apply IH; [|done].
  destruct ev as [t|e|e|e|]; simpl; try done.
  - unfold VariantA.gameLoop. by destruct (VariantA.previousTime a).
  - unfold VariantA.handleKeyDown. by destruct (_ && _).
  - unfold VariantA.handleKeyUp. by destruct (_ =? _)%string.
  - by apply (ranged_change_A parseFloat e a).
Qed.

Lemma run_ranged_B parseFloat evs (b : VariantB.App) :
  ranged_B (VariantB.config b) -> slider_trace_B parseFloat evs b ->
  ranged_B (VariantB.config (VariantB.run parseFloat evs b)).
Proof.
  revert b. induction evs as [|ev evs IH]; intros b Hr Htr; simpl; [done|].
  destruct Htr as [Hev Htr]. apply IH; [|done].
  destruct ev as [t|e|e|e|]; simpl; try done.
  - unfold VariantB.handleKeyDown. by destruct (_ && _).
  - unfold VariantB.handleKeyUp. by destruct (_ =? _)%string.
  - by apply (ranged_change_B parseFloat e b).
Qed.

Lemma init_ranged_A : ranged_A (VariantA.config VariantA.init).
Proof. split; [|done]. repeat constructor; evaluate. Qed.

Lemma init_ranged_B : ranged_B (VariantB.config VariantB.init).
Proof. split; [|done]. repeat constructor; evaluate. Qed.

(** X11. When every change event comes from a slider of the page, with a
    value within the range of that slider, then in every state reached
    from the initial one the configuration has the properties it started
    with and no other, and each slider shows the property it names, within
    its range; so no rate is negative. *)
Theorem sliders_keep_ranges (parseFloat : string -> Q)
    (evsA : list VariantA.Event) (evsB : list VariantB.Event) :
  (slider_trace_A parseFloat evsA VariantA.init ->
   ranged_A (VariantA.config (VariantA.run parseFloat evsA VariantA.init)))
  /\ (slider_trace_B parseFloat evsB VariantB.init ->
   ranged_B (VariantB.config (VariantB.run parseFloat evsB VariantB.init))).
Proof.
  split; intros Htr.
  - apply run_ranged_A; [apply init_ranged_A | done].
  - apply run_ranged_B; [apply init_ranged_B | done].
Qed.

Lemma sliders_keep_ranges_witness :
  let parseFloat := fun _ : string => 7.5 in
  let evsA := [VariantA.Frame 0;
               VariantA.Change {| name := "actionStaminaDecay"; value := "7.5" |};
               VariantA.Frame 16; VariantA.ClickReset;
               VariantA.Change {| name := "exhaustionDecay"; value := "7.5" |}] in
  let evsB := [VariantB.Frame 0;
               VariantB.Change {| name := "currentStaminaRecovery"; value := "7.5" |};
               VariantB.KeyDown Space; VariantB.Frame 16;
               VariantB.Change {| name := "maxStaminaDecay"; value := "7.5" |}] in
  ranged_A (VariantA.config (VariantA.run parseFloat evsA VariantA.init))
  /\ ranged_B (VariantB.config (VariantB.run parseFloat evsB VariantB.init)).
Proof.
  intros parseFloat evsA evsB. split.
  - apply (proj1 (sliders_keep_ranges parseFloat evsA evsB)).
    simpl. repeat split; try done.
    + apply Exists_cons_tl, Exists_cons_hd. split; [done | evaluate].
    + apply Exists_cons_hd. split; [done | evaluate].
  - apply (proj2 (sliders_keep_ranges parseFloat evsA evsB)).
    simpl. repeat split; try done.
    + apply Exists_cons_tl, Exists_cons_tl, Exists_cons_hd.
      split; [done | evaluate].
    + apply Exists_cons_hd. split; [done | evaluate].
Defined.

(** X12. After a change event the page shows the new value on the slider
    the event names and the old value on every other slider, and no other
    prop of a slider changes, in both variants. *)
Theorem sliders_redrawn (parseFloat : string -> Q) (e : ChangeEvent)
    (a : VariantA.App) (b : VariantB.App) :
  Forall2 (redrawn parseFloat e)
    (VariantA.sliders (VariantA.config a))
    (VariantA.sliders
       (VariantA.config (VariantA.handleConfigChange parseFloat e a)))
  /\ Forall2 (redrawn parseFloat e)
    (VariantB.sliders (VariantB.config b))
    (VariantB.sliders
       (VariantB.config (VariantB.handleConfigChange parseFloat e b))).
Proof.
  split; repeat constructor; simpl; apply field_insert.
Qed.

(** ** What the page draws *)

(** X13. Variant A, for a state within the bounds: the width of the bar
    is a percentage from 0 to 100, and the gradient stop is a number, also
    from 0 to 100, whether the exhaustion value is 0 or not. *)
Theorem gradient_in_range (s : VariantA.StaminaState) :
  VariantA.invariant s ->
  exists stop,
    VariantA.actionRelativeToExhaustionPercent s = Some stop
    /\ 0 <= stop <= 100
    /\ 0 <= VariantA.exhaustionPercent s <= 100.
Proof.
  intros (H0 & Hle & Hcap).
  unfold VariantA.actionRelativeToExhaustionPercent,
    VariantA.exhaustionPercent, divide, VariantA.TOTAL_STAMINA in *.
  assert (Hw : 0 <= VariantA.exhaustion s / 100 <= 1).
  { split.
    - apply Qle_shift_div_l; [done|]. lra.
    - apply Qle_shift_div_r; [done|]. lra. }
  destruct (Qlt_le_dec 0 (VariantA.exhaustion s)) as [Hpos|Hzero].
  - destruct (Qeq_dec (VariantA.exhaustion s) 0) as [Hz|Hnz]; [lra|].
    eexists. split; [reflexivity|].
    assert (Hr : 0 <= VariantA.action s / VariantA.exhaustion s <= 1).
    { split.
      - apply Qle_shift_div_l; [done|]. lra.
      - apply Qle_shift_div_r; [done|]. lra. }
    split; lra.
  - exists 0. split; [done|]. split; lra.
Qed.

Lemma gradient_in_range_witness :
  let s := {| VariantA.exhaustion := 80; VariantA.action := 20 |} in
  exists stop,
    VariantA.actionRelativeToExhaustionPercent s = Some stop
    /\ 0 <= stop <= 100
    /\ 0 <= VariantA.exhaustionPercent s <= 100.
Proof. intros s. apply (gradient_in_range s). evaluate. Defined.

(** X14. Variant B, for a state within the bounds: the two widths are
    percentages from 0 to 100, and the bar of the current value is never
    wider than the bar of the maximum. *)
Theorem widths_in_range (s : VariantB.StaminaState) :
  VariantB.invariant s ->
  0 <= VariantB.currentPercent s
  /\ VariantB.currentPercent s <= VariantB.maxPercent s
  /\ VariantB.maxPercent s <= 100.
Proof.
  intros (H0 & Hle & Hcap).
  unfold VariantB.currentPercent, VariantB.maxPercent,
    VariantB.TOTAL_STAMINA in *.
  assert (Hc : 0 <= VariantB.current s / 100)
    by (apply Qle_shift_div_l; [done|]; lra).
  assert (Hcm : VariantB.current s / 100 <= VariantB.max s / 100).
  { unfold Qdiv. change (/ 100) with (1 # 100). lra. }
  assert (Hm : VariantB.max s / 100 <= 1)
    by (apply Qle_shift_div_r; [done|]; lra).
  repeat split; lra.
Qed.

Lemma widths_in_range_witness :
  let s := {| VariantB.max := 80; VariantB.current := 20 |} in
  0 <= VariantB.currentPercent s
  /\ VariantB.currentPercent s <= VariantB.maxPercent s
  /\ VariantB.maxPercent s <= 100.
Proof. intros s. apply (widths_in_range s). evaluate. Defined.

Lemma round_monotone (x y : Q) : x <= y -> (Math.round x <= Math.round y)%Z.
Proof. intros H. unfold Math.round. apply Qfloor_resp_le. lra. Qed.

(** X15. The rounded numbers written on the bar keep the order of the
    values: for a state within the bounds, in both variants, the first
    number is at least 0 and at most the second, which is at most 100. *)
Theorem barText_in_range (a : VariantA.StaminaState) (b : VariantB.StaminaState) :
  (VariantA.invariant a ->
   (0 <= fst (VariantA.barText a) <= snd (VariantA.barText a))%Z
   /\ (snd (VariantA.barText a) <= 100)%Z)
  /\ (VariantB.invariant b ->
   (0 <= fst (VariantB.barText b) <= snd (VariantB.barText b))%Z
   /\ (snd (VariantB.barText b) <= 100)%Z).
Proof.
  split; intros (H0 & Hle & Hcap); simpl.
  - pose proof (round_monotone _ _ H0). pose proof (round_monotone _ _ Hle).
    pose proof (round_monotone _ _ Hcap).
    change (Math.round 0) with 0%Z in *.
    change (Math.round VariantA.TOTAL_STAMINA) with 100%Z in *. lia.
  - pose proof (round_monotone _ _ H0). pose proof (round_monotone _ _ Hle).
    pose proof (round_monotone _ _ Hcap).
    change (Math.round 0) with 0%Z in *.
    change (Math.round VariantB.TOTAL_STAMINA) with 100%Z in *. lia.
Qed.

Lemma barText_in_range_witness :
  let a := {| VariantA.exhaustion := 99.5; VariantA.action := 99.4 |} in
  let b := {| VariantB.max := 0.5; VariantB.current := 0.49 |} in
  ((0 <= fst (VariantA.barText a) <= snd (VariantA.barText a))%Z
   /\ (snd (VariantA.barText a) <= 100)%Z)
  /\ ((0 <= fst (VariantB.barText b) <= snd (VariantB.barText b))%Z
   /\ (snd (VariantB.barText b) <= 100)%Z).
Proof.
  intros a b. split.
  - apply (proj1 (barText_in_range a b)). evaluate.
  - apply (proj2 (barText_in_range a b)). evaluate.
Defined.

(** ** Slider changes in a row *)

(** X16. Changes of two different parameters can come in either order,
    and of two changes of one parameter only the second counts: in both
    variants the component state after the two events is the same. *)
Theorem changes_compose (parseFloat : string -> Q) (e1 e2 : ChangeEvent)
    (a : VariantA.App) (b : VariantB.App) :
  (name e1 <> name e2 ->
   VariantA.run parseFloat [VariantA.Change e1; VariantA.Change e2] a
   = VariantA.run parseFloat [VariantA.Change e2; VariantA.Change e1] a
   /\ VariantB.run parseFloat [VariantB.Change e1; VariantB.Change e2] b
   = VariantB.run parseFloat [VariantB.Change e2; VariantB.Change e1] b)
  /\ (name e1 = name e2 ->
   VariantA.run parseFloat [VariantA.Change e1; VariantA.Change e2] a
   = VariantA.run parseFloat [VariantA.Change e2] a
   /\ VariantB.run parseFloat [VariantB.Change e1; VariantB.Change e2] b
   = VariantB.run parseFloat [VariantB.Change e2] b).
Proof.
  split; intros Hn; simpl; unfold VariantA.cleanup, VariantB.cleanup; simpl.
  - split; f_equal; by apply insert_insert_ne.
  - rewrite Hn. split; f_equal; apply insert_insert_eq.
Qed.

Lemma changes_compose_witness :
  let parseFloat := fun s : string => if String.eqb s "4" then 4 else 9 in
  let e1 := {| name := "exhaustionDecay"; value := "4" |} in
  let e2 := {| name := "actionStaminaDecay"; value := "9" |} in
  let e3 := {| name := "exhaustionDecay"; value := "9" |} in
  (VariantA.run parseFloat [VariantA.Change e1; VariantA.Change e2]
     VariantA.init
   = VariantA.run parseFloat [VariantA.Change e2; VariantA.Change e1]
       VariantA.init)
  /\ (VariantA.run parseFloat [VariantA.Change e1; VariantA.Change e3]
        VariantA.init
      = VariantA.run parseFloat [VariantA.Change e3] VariantA.init).
Proof.
  intros parseFloat e1 e2 e3. split.
  - apply (proj1 (changes_compose parseFloat e1 e2 VariantA.init
                    VariantB.init)). discriminate.
  - apply (proj2 (changes_compose parseFloat e1 e3 VariantA.init
                    VariantB.init)). reflexivity.
Defined.

(** ** Bounds that need no assumption *)



